(** * pylok: advisory lock files with metadata

    A shallow embedding of [pylok.py] and the properties of its lock
    life cycle.  The program is a single function [lock] that dispatches on
    an action string and manipulates one lock file through a handful of
    helpers ([is_locked], [create_lock_file], [write_to_lock_file],
    [remove_lock_file], [create_lock_dir], [ensure_lock], [ensure_unlock]).

    The program state is made of two stores:
    - the file system, a finite map from resolved paths to nodes;
    - the Python heap of dictionaries, because [lock] updates the mapping it
      is given in place and returns that same object, and because the default
      value of its [lock_data] parameter is one dictionary created when the
      function is defined. *)

From Stdlib Require Import Ascii.
From stdpp Require Import gmap strings list fin_maps.

(** ** Values and dictionaries *)

(** The scalar values a metadata mapping holds.  [VNone] is Python's [None],
    the value [lock] stores under [lock_file_location] when unlocked. *)
Inductive value :=
| VNone
| VStr (s : string)
| VInt (z : Z)
| VBool (b : bool).

#[global] Instance value_eq_dec : EqDecision value.
Proof. solve_decision. Defined.

(** A Python [dict] with string keys. *)
Abbreviation metadata := (gmap string value).

(** [d.update(other)]: the pairs of [other] win. *)
Definition dict_update (d other : metadata) : metadata := other ∪ d.

(** ** The file system *)

(** Content of a regular file.  [yaml.dump] and its inverse are the
    serializer the program delegates to; a dumped document is represented by
    the mapping it was dumped from. *)
Inductive content :=
| Empty
| YamlDoc (m : metadata).

#[global] Instance content_eq_dec : EqDecision content.
Proof. solve_decision. Defined.

Definition deserialize (c : content) : option metadata :=
  match c with
  | Empty => None
  | YamlDoc m => Some m
  end.

(** A node is a directory or a regular file; a file carries whether this
    process may open it for reading and for writing. *)
Inductive node :=
| Dir
| File (readable writable : bool) (c : content).

#[global] Instance node_eq_dec : EqDecision node.
Proof. solve_decision. Defined.

Abbreviation path := (list string).
Abbreviation filesystem := (gmap (list string) node).

Inductive errno := EEXIST | ENOENT | ENOTDIR | EISDIR | EACCES.

#[global] Instance errno_eq_dec : EqDecision errno.
Proof. solve_decision. Defined.

(** *** Path resolution

    A path string is cut at every ['/']; empty components and ["."] are
    dropped.  The working directory is the root, so the relative and the
    absolute spelling of a path coincide; [".."] and symbolic links are not
    interpreted. *)
Fixpoint split_slash (acc s : string) : list string :=
  match s with
  | EmptyString => [acc]
  | String c s' =>
      if Ascii.eqb c "/"%char then acc :: split_slash "" s'
      else split_slash (acc +:+ String c "") s'
  end.

Definition keep_component (c : string) : bool :=
  negb (String.eqb c "") && negb (String.eqb c ".").

Definition resolve (s : string) : path :=
  List.filter keep_component (split_slash "" s).

(** The two halves of [split_slash]: the components before the last ['/']
    and the text after it. *)
Fixpoint split_init (acc s : string) : list string :=
  match s with
  | EmptyString => []
  | String c s' =>
      if Ascii.eqb c "/"%char then acc :: split_init "" s'
      else split_init (acc +:+ String c "") s'
  end.

Fixpoint split_last (acc s : string) : string :=
  match s with
  | EmptyString => acc
  | String c s' =>
      if Ascii.eqb c "/"%char then split_last "" s'
      else split_last (acc +:+ String c "") s'
  end.

(** The root always exists and is a directory. *)
Definition node_at (fs : filesystem) (p : path) : option node :=
  match p with
  | [] => Some Dir
  | _ => fs !! p
  end.

Definition parent (p : path) : path := removelast p.

(** *** System calls *)

(** [os.makedirs(name)]: creates the directory and its missing ancestors.
    Returns the error it raises, if any, and the file system it leaves. *)
Fixpoint makedirs_from (pre : path) (rest : list string) (fs : filesystem)
  : option errno * filesystem :=
  match rest with
  | [] => (Some EEXIST, fs)
  | c :: rest' =>
      let p := pre ++ [c] in
      match rest' with
      | [] =>
          match node_at fs p with
          | Some _ => (Some EEXIST, fs)
          | None => (None, <[p := Dir]> fs)
          end
      | _ =>
          match node_at fs p with
          | Some Dir => makedirs_from p rest' fs
          | Some (File _ _ _) => (Some ENOTDIR, fs)
          | None => makedirs_from p rest' (<[p := Dir]> fs)
          end
      end
  end.

Definition os_makedirs (name : string) (fs : filesystem)
  : option errno * filesystem :=
  if String.eqb name "" then (Some ENOENT, fs)
  else makedirs_from [] (resolve name) fs.

(** [open(name, 'r')]: succeeds on a readable regular file. *)
Definition open_read (name : string) (fs : filesystem) : errno + content :=
  match node_at fs (resolve name) with
  | Some (File true _ c) => inr c
  | Some (File false _ _) => inl EACCES
  | Some Dir => inl EISDIR
  | None => inl ENOENT
  end.

(** What opening [name] for writing does when no node is there: the file is
    created, readable and writable, in an existing directory. *)
Definition create_in_parent (p : path) (c : content) (fs : filesystem)
  : option errno * filesystem :=
  match node_at fs (parent p) with
  | Some Dir => (None, <[p := File true true c]> fs)
  | Some (File _ _ _) => (Some ENOTDIR, fs)
  | None => (Some ENOENT, fs)
  end.

(** [open(name, 'a').close()]: creates an empty file when there is none and
    leaves an existing writable file as it is. *)
Definition open_append (name : string) (fs : filesystem)
  : option errno * filesystem :=
  let p := resolve name in
  match node_at fs p with
  | Some (File _ true _) => (None, fs)
  | Some (File _ false _) => (Some EACCES, fs)
  | Some Dir => (Some EISDIR, fs)
  | None => create_in_parent p Empty fs
  end.

(** [open(name, 'w')] followed by writing [c] and closing: the file is
    truncated, its permissions are kept. *)
Definition open_write (name : string) (c : content) (fs : filesystem)
  : option errno * filesystem :=
  let p := resolve name in
  match node_at fs p with
  | Some (File r true _) => (None, <[p := File r true c]> fs)
  | Some (File _ false _) => (Some EACCES, fs)
  | Some Dir => (Some EISDIR, fs)
  | None => create_in_parent p c fs
  end.

(** [os.remove(name)]: unlinks a regular file. *)
Definition os_remove (name : string) (fs : filesystem)
  : option errno * filesystem :=
  let p := resolve name in
  match node_at fs p with
  | Some (File _ _ _) => (None, delete p fs)
  | Some Dir => (Some EISDIR, fs)
  | None => (Some ENOENT, fs)
  end.

(** ** Program state, exceptions and the monad of the program *)

(** Dictionaries live in a heap and are passed by reference. *)
Abbreviation ref := nat.

Record world := World {
  fs : filesystem;
  heap : gmap nat metadata;
}.

#[global] Instance world_eq_dec : EqDecision world.
Proof. solve_decision. Defined.

Definition set_fs (f : filesystem) (w : world) : world :=
  {| fs := f; heap := heap w |}.

Definition set_heap (h : gmap nat metadata) (w : world) : world :=
  {| fs := fs w; heap := h |}.

(** The exception classes of [pylok.py], and [OSError] for what the system
    calls raise. *)
Inductive exn :=
| LockFileNotPresentError
| LockFilePresentError
| LockFileNotPresentForRemoval
| LockActionError
| OSError (e : errno).

#[global] Instance exn_eq_dec : EqDecision exn.
Proof. solve_decision. Defined.

Inductive outcome (A : Type) :=
| Returns (a : A)
| Raises (e : exn).

#[global] Instance outcome_eq_dec {A} `{EqDecision A} : EqDecision (outcome A).
Proof. solve_decision. Defined.

Arguments Returns {A} a.
Arguments Raises {A} e.

(** A computation runs in a world and leaves a world, also when it raises:
    what was written before the exception stays written. *)
Definition M (A : Type) : Type := world → outcome A * world.

Definition ret {A} (a : A) : M A := λ w, (Returns a, w).

#[global] Instance M_ret : MRet M := @ret.

#[global] Instance M_bind : MBind M := λ A B k m w,
  match m w with
  | (Returns a, w') => k a w'
  | (Raises e, w') => (Raises e, w')
  end.

Definition raise {A} (e : exn) : M A := λ w, (Raises e, w).

(** [try: body except: handler] *)
Definition try_except {A} (body : M A) (handler : exn → M A) : M A := λ w,
  match body w with
  | (Raises e, w') => handler e w'
  | r => r
  end.

(** A system call that may fail with an [OSError]. *)
Definition syscall (call : filesystem → option errno * filesystem) : M () := λ w,
  let '(e, f) := call (fs w) in
  (match e with None => Returns () | Some en => Raises (OSError en) end,
   set_fs f w).

(** [d.update(other)] on the dictionary object [r]. *)
Definition update (r : ref) (other : metadata) : M () := λ w,
  (Returns (), set_heap (alter (λ d, dict_update d other) r (heap w)) w).

(** The mapping a reference holds. *)
Definition deref (r : ref) (w : world) : metadata := heap w !!! r.

(** ** The program *)

Inductive LockAction := UNLOCK | LOCK | STATUS.

Definition LockAction_value (a : LockAction) : string :=
  match a with
  | UNLOCK => "unlock"
  | LOCK => "lock"
  | STATUS => "status"
  end.

Definition is_locked (lock_file : string) : M bool := λ w,
  match open_read lock_file (fs w) with
  | inr _ => (Returns true, w)
  | inl _ => (Returns false, w)
  end.

Definition ensure_lock (lock_file : string) : M bool :=
  file_is_locked ← is_locked lock_file;
  if negb file_is_locked then raise LockFileNotPresentError
  else ret true.

Definition ensure_unlock (lock_file : string) : M bool :=
  file_is_locked ← is_locked lock_file;
  if file_is_locked : bool then raise LockFilePresentError
  else ret true.

Definition create_lock_dir (lock_file_directory : string) : M () :=
  try_except (syscall (os_makedirs lock_file_directory))
    (λ e, match e with
          | OSError en => if decide (en ≠ EEXIST) then raise e else ret ()
          | _ => raise e
          end).

Definition create_lock_file (lock_file : string) : M () :=
  syscall (open_append lock_file).

Definition write_to_lock_file (location lock_object : string) (lock_data : ref)
  : M () := λ w,
  let lock_file := location +:+ lock_object +:+ ".lock" in
  syscall (open_write lock_file (YamlDoc (deref lock_data w))) w.

Definition remove_lock_file (lock_file : string) : M () :=
  syscall (os_remove lock_file).

(** The two entries every branch of [lock] merges into the mapping. *)
Definition return_info (lock_file : value) (current_lock_status : string)
  : metadata :=
  {[ "lock_file_location" := lock_file;
     "lock_file_status" := VStr current_lock_status ]}.

(** [lock], branch by branch in the order of the source: status, unlock,
    lock, anything else.  The local rebinding of [lock_file] to [None] and
    of [current_lock_status] shows as the arguments of [return_info]; the
    last [update] and the [return] are the tail all branches share. *)
Definition lock (lock_file_directory lock_object : string) (lock_data : ref)
    (lock_action : string) (ensure_unlock_state ensure_lock_state : bool)
  : M ref :=
  let lock_file_name := lock_object +:+ ".lock" in
  let lock_file := lock_file_directory +:+ lock_file_name in
  create_lock_dir lock_file_directory;;
  (if String.eqb lock_action (LockAction_value STATUS) then
     file_is_locked ← is_locked lock_file;
     if file_is_locked : bool
     then update lock_data (return_info (VStr lock_file) "locked")
     else update lock_data (return_info VNone "unlocked")
   else if String.eqb lock_action (LockAction_value UNLOCK) then
     (if ensure_lock_state then ensure_lock lock_file else ret true);;
     try_except (remove_lock_file lock_file)
       (λ _, raise LockFileNotPresentError);;
     file_is_locked ← is_locked lock_file;
     if file_is_locked : bool then raise LockFileNotPresentForRemoval
     else update lock_data (return_info VNone "unlocked")
   else if String.eqb lock_action (LockAction_value LOCK) then
     (if ensure_unlock_state then ensure_unlock lock_file else ret true);;
     create_lock_file lock_file;;
     update lock_data (return_info (VStr lock_file) "locked");;
     write_to_lock_file lock_file_directory lock_object lock_data;;
     file_is_locked ← is_locked lock_file;
     if file_is_locked : bool then ret ()
     else raise LockFileNotPresentError
   else raise LockActionError);;
  update lock_data {[ "lock_action" := VStr lock_action ]};;
  ret lock_data.

(** The dictionary built by [lock_data={}] in the [def] line: one object,
    created once, used by every call that omits the argument. *)
Definition default_lock_data : ref := 0%nat.

(** The heap right after the module is loaded. *)
Definition initial_heap : gmap nat metadata := {[ default_lock_data := ∅ ]}.

(** ** Vocabulary of the properties *)

(** The path of the lock file as the specification writes it: directory,
    resource name, suffix. *)
Definition lock_path (directory resource_name : string) : string :=
  directory +:+ resource_name +:+ ".lock".

(** The resource is locked when its lock file can be opened for reading. *)
Definition readable_file (f : filesystem) (name : string) : bool :=
  match open_read name f with
  | inr _ => true
  | inl _ => false
  end.

(** Something, of any kind, is at the path. *)
Definition path_exists (f : filesystem) (name : string) : bool :=
  bool_decide (is_Some (node_at f (resolve name))).

(** What is persisted in a lock file, read back. *)
Definition persisted (f : filesystem) (name : string) : option metadata :=
  match open_read name f with
  | inr c => deserialize c
  | inl _ => None
  end.

(** Directory creation does not fail, other than with "already exists". *)
Definition dir_ok (directory : string) (f : filesystem) : bool :=
  match fst (os_makedirs directory f) with
  | None | Some EEXIST => true
  | Some _ => false
  end.

Definition after_makedirs (directory : string) (f : filesystem) : filesystem :=
  snd (os_makedirs directory f).

(** [f'] is [f] with some directories added, all of them on the way to
    [target]; nothing that was there has changed or gone. *)
Definition adds_dirs_to (target : path) (f f' : filesystem) : Prop :=
  ∀ p, f' !! p = f !! p ∨
       (f !! p = None ∧ f' !! p = Some Dir ∧ p `prefix_of` target).

(** [f'] is [f] except possibly at the one path [p]. *)
Definition same_except (p : path) (f f' : filesystem) : Prop :=
  ∀ q, q ≠ p → f' !! q = f !! q.

(** The regular files are the same in [f] and [f'], with the same
    permissions and content: none created, none removed, none rewritten. *)
Definition same_files (f f' : filesystem) : Prop :=
  ∀ p r w c, f' !! p = Some (File r w c) ↔ f !! p = Some (File r w c).

(** What a successful call leaves in the mapping: the entries of the branch
    merged in, then the action. *)
Definition merged (m info : metadata) (lock_action : string) : metadata :=
  dict_update (dict_update m info) {[ "lock_action" := VStr lock_action ]}.

(** Something is at [pre ++ rest] and every ancestor below [pre] is a
    directory: [os.makedirs] finds nothing to create. *)
Fixpoint settled (pre : path) (rest : list string) (f : filesystem) : bool :=
  match rest with
  | [] => true
  | c :: rest' =>
      let p := pre ++ [c] in
      match rest' with
      | [] => bool_decide (is_Some (node_at f p))
      | _ =>
          match node_at f p with
          | Some Dir => settled p rest' f
          | _ => false
          end
      end
  end.

Definition dir_exists (directory : string) (f : filesystem) : bool :=
  negb (String.eqb directory "") && settled [] (resolve directory) f.

(** In a well-formed file system every node but the root sits in a
    directory. *)
Definition well_formed (f : filesystem) : Prop :=
  map_Forall (λ p _, node_at f (parent p) = Some Dir) f.

(** ** Worlds to run the program in *)

(** [/tmp/locks] exists and is empty. *)
Definition locks_fs : filesystem :=
  {[ ["tmp"] := Dir; ["tmp"; "locks"] := Dir ]}.

(** Only [/tmp] exists. *)
Definition tmp_fs : filesystem := {[ ["tmp"] := Dir ]}.

(** The dictionary a caller passes as [lock_data]. *)
Definition caller_data : ref := 1%nat.

Definition maintenance : metadata :=
  {[ "msg" := VStr "maintenance"; "expire" := VStr "2099-01-01" ]}.

Definition caller_heap : gmap nat metadata :=
  <[caller_data := maintenance]> initial_heap.

Definition w_unlocked : world := World locks_fs caller_heap.

Definition w_no_directory : world := World tmp_fs caller_heap.

(** [/tmp/locks/web.lock] is there, written by an earlier holder, with the
    given permissions. *)
Definition held_by_alice : metadata := {[ "holder" := VStr "alice" ]}.

Definition w_held (readable writable : bool) : world :=
  World (<[ ["tmp"; "locks"; "web.lock"] :=
             File readable writable (YamlDoc held_by_alice) ]> locks_fs)
    caller_heap.

(** [/tmp/locksweb.lock] is there: the lock file of resource ["web"] for the
    directory string ["/tmp/locks"]. *)
Definition w_held_beside : world :=
  World (<[ ["tmp"; "locksweb.lock"] := File true true (YamlDoc held_by_alice) ]>
           tmp_fs)
    caller_heap.

(** What [/tmp/locks/web.lock] holds after [maintenance] was locked in. *)
Definition maintenance_locked : metadata :=
  {[ "msg" := VStr "maintenance"; "expire" := VStr "2099-01-01";
     "lock_file_location" := VStr "/tmp/locks/web.lock";
     "lock_file_status" := VStr "locked" ]}.

(** A call that leaves [lock_data] out. *)
Definition lock_with_default (lock_file_directory lock_object : string)
    (lock_action : string) : M ref :=
  lock lock_file_directory lock_object default_lock_data lock_action
    false false.

(** The world after the module was loaded, with [/tmp/locks] in place. *)
Definition w_loaded : world := World locks_fs initial_heap.

(** [w_unlocked] after [maintenance] was locked in for ["web"]. *)
Definition w_web_locked : world :=
  snd (lock "/tmp/locks/" "web" caller_data "lock" false false w_unlocked).

(** ... and after it was unlocked again. *)
Definition w_web_unlocked : world :=
  snd (lock "/tmp/locks/" "web" caller_data "unlock" false false w_web_locked).

(** ** Vocabulary of the further properties *)

#[global] Instance well_formed_dec (f : filesystem) : Decision (well_formed f).
Proof. unfold well_formed. apply _. Defined.


(** Every run of [m] relates the world it starts in to the world it leaves,
    whether it returns or raises. *)
Definition respects (R : world → world → Prop) {A} (m : M A) : Prop :=
  ∀ w o w', m w = (o, w') → R w w'.

(** From [w] to [w'], no dictionary but [r] and no path but [lp] and the
    prefixes of [target] has changed. *)
Definition touches_only (r : ref) (lp target : path) (w w' : world) : Prop :=
  (∀ r', r' ≠ r → heap w' !! r' = heap w !! r') ∧
  (∀ q, q ≠ lp → ¬ q `prefix_of` target → fs w' !! q = fs w !! q).

(** * Properties *)

(** ** Running the monad *)

Lemma run_bind {A B} (m : M A) (k : A → M B) (w : world) :
  (m ≫= k) w =
  match m w with
  | (Returns a, w') => k a w'
  | (Raises e, w') => (Raises e, w')
  end.
Proof. reflexivity. Qed.

Lemma run_is_locked (lock_file : string) (w : world) :
  is_locked lock_file w = (Returns (readable_file (fs w) lock_file), w).
Proof.
  unfold is_locked, readable_file.
  by destruct (open_read lock_file (fs w)).
Qed.

Lemma run_ensure_lock (lock_file : string) (w : world) :
  ensure_lock lock_file w =
  if readable_file (fs w) lock_file then (Returns true, w)
  else (Raises LockFileNotPresentError, w).
Proof.
  unfold ensure_lock. rewrite run_bind, run_is_locked.
  by destruct (readable_file _ _).
Qed.

Lemma run_ensure_unlock (lock_file : string) (w : world) :
  ensure_unlock lock_file w =
  if readable_file (fs w) lock_file then (Raises LockFilePresentError, w)
  else (Returns true, w).
Proof.
  unfold ensure_unlock. rewrite run_bind, run_is_locked.
  by destruct (readable_file _ _).
Qed.

Lemma run_create_lock_dir (d : string) (w : world) :
  create_lock_dir d w =
  (match fst (os_makedirs d (fs w)) with
   | None | Some EEXIST => Returns ()
   | Some en => Raises (OSError en)
   end, set_fs (after_makedirs d (fs w)) w).
Proof.
  unfold create_lock_dir, try_except, syscall, after_makedirs.
  destruct (os_makedirs d (fs w)) as [[[]|] f]; reflexivity.
Qed.

Lemma run_create_lock_dir_ok (d : string) (w : world) :
  dir_ok d (fs w) = true →
  create_lock_dir d w = (Returns (), set_fs (after_makedirs d (fs w)) w).
Proof.
  intros Hok. rewrite run_create_lock_dir. unfold dir_ok in Hok.
  by destruct (fst (os_makedirs d (fs w))) as [[]|].
Qed.

Lemma run_create_lock_dir_fail (d : string) (w : world) :
  dir_ok d (fs w) = false →
  ∃ en, en ≠ EEXIST ∧
    create_lock_dir d w =
    (Raises (OSError en), set_fs (after_makedirs d (fs w)) w).
Proof.
  intros Hok. rewrite run_create_lock_dir. unfold dir_ok in Hok.
  destruct (fst (os_makedirs d (fs w))) as [[]|]; try done;
    (eexists; split; [|reflexivity]; done).
Qed.

Lemma run_update (r : ref) (other m : metadata) (w : world) :
  heap w !! r = Some m →
  update r other w =
  (Returns (), set_heap (<[r := dict_update m other]> (heap w)) w).
Proof.
  intros Hr. unfold update. do 2 f_equal.
  apply map_eq. intros i. rewrite lookup_alter, lookup_insert.
  destruct (decide (r = i)) as [->|]; [by rewrite Hr|done].
Qed.

(** Entering a branch of [lock]: the action string is compared, the
    directory is created, and the branch starts in the world that leaves. *)
Ltac enter_branch d n Hd :=
  unfold lock;
  cbn [String.eqb Ascii.eqb Bool.eqb LockAction_value];
  rewrite run_bind, (run_create_lock_dir_ok _ _ Hd);
  unfold set_fs; fold (lock_path d n).

(** ** Strings and path resolution *)

Lemma string_app_cons (a : ascii) (s t : string) :
  String a s +:+ t = String a (s +:+ t).
Proof. reflexivity. Qed.

Lemma string_app_assoc (s1 s2 s3 : string) :
  (s1 +:+ s2) +:+ s3 = s1 +:+ s2 +:+ s3.
Proof.
  induction s1 as [|a s1 IH]; [done|].
  by rewrite !string_app_cons, IH.
Qed.

Lemma string_app_nil_r (s : string) : s +:+ "" = s.
Proof.
  induction s as [|a s IH]; [done|]. by rewrite string_app_cons, IH.
Qed.

Lemma string_length_app (s1 s2 : string) :
  String.length (s1 +:+ s2) = (String.length s1 + String.length s2)%nat.
Proof.
  induction s1 as [|a s1 IH]; [done|].
  rewrite string_app_cons. simpl. by rewrite IH.
Qed.

Lemma split_slash_init_last (acc s : string) :
  split_slash acc s = split_init acc s ++ [split_last acc s].
Proof.
  revert acc. induction s as [|c s IH]; intros acc; simpl; [done|].
  destruct (Ascii.eqb c "/"); by rewrite IH.
Qed.

Lemma split_slash_app (acc s t : string) :
  split_slash acc (s +:+ t) = split_init acc s ++ split_slash (split_last acc s) t.
Proof.
  revert acc. induction s as [|c s IH]; intros acc; [done|].
  rewrite string_app_cons. simpl.
  destruct (Ascii.eqb c "/"); by rewrite IH.
Qed.

(** Without a ['/'] in [s], nothing is cut: the text joins the component
    being read.  Otherwise the first component starts with that text. *)
Lemma split_init_head (acc s : string) :
  (split_init acc s = [] ∧ split_last acc s = acc +:+ s) ∨
  (∃ x rest, split_init acc s = (acc +:+ x) :: rest).
Proof.
  revert acc. induction s as [|c s IH]; intros acc; simpl.
  - left. by rewrite string_app_nil_r.
  - destruct (Ascii.eqb c "/").
    + right. exists "", (split_init "" s). by rewrite string_app_nil_r.
    + destruct (IH (acc +:+ String c "")) as [[-> ->]|(x & rest & ->)].
      * left. by rewrite string_app_assoc.
      * right. exists (String c x), rest. by rewrite string_app_assoc.
Qed.

Lemma keep_component_app (l x : string) :
  keep_component l = true → keep_component (l +:+ x) = true.
Proof.
  destruct l as [|a [|b l]]; [done|..]; rewrite ?string_app_cons.
  - destruct x; [done|]. intros _. unfold keep_component. simpl.
    by destruct (Ascii.eqb a ".").
  - intros _. unfold keep_component. simpl. by destruct (Ascii.eqb a ".").
Qed.

Lemma keep_component_lock (x : string) : keep_component (x +:+ ".lock") = true.
Proof.
  destruct x as [|a [|b x]]; [done|..]; rewrite ?string_app_cons;
    unfold keep_component; simpl; by destruct (Ascii.eqb a ".").
Qed.

Lemma split_slash_lock (acc : string) :
  split_slash acc ".lock" = [acc +:+ ".lock"].
Proof. simpl. by rewrite !string_app_assoc. Qed.

(** The resolved lock path: the components of [directory +:+ resource_name]
    with [".lock"] appended to the last one, which is never dropped. *)
Lemma resolve_lock_path (d n : string) :
  resolve (lock_path d n) =
  List.filter keep_component (split_init "" d)
  ++ List.filter keep_component (split_init (split_last "" d) n)
  ++ [split_last (split_last "" d) n +:+ ".lock"].
Proof.
  unfold resolve, lock_path.
  rewrite split_slash_app, List.filter_app. f_equal.
  rewrite split_slash_app, List.filter_app. f_equal.
  rewrite split_slash_lock. simpl.
  by rewrite keep_component_lock.
Qed.

Lemma resolve_directory (d : string) :
  resolve d =
  List.filter keep_component (split_init "" d)
  ++ List.filter keep_component [split_last "" d].
Proof.
  unfold resolve. by rewrite split_slash_init_last, List.filter_app.
Qed.

(** The lock path is never the directory or one of its ancestors. *)
Lemma lock_path_not_prefix (d n : string) :
  ¬ resolve (lock_path d n) `prefix_of` resolve d.
Proof.
  rewrite resolve_lock_path, resolve_directory.
  set (A := List.filter keep_component (split_init "" d)).
  set (l := split_last "" d).
  intros Hpre. apply prefix_app_inv in Hpre.
  pose proof (prefix_length _ _ Hpre) as Hlen.
  rewrite length_app in Hlen. simpl in Hlen.
  destruct (keep_component l) eqn:Hl; simpl in Hlen; [|lia].
  destruct (split_init_head l n) as [[Hi Hla]|(x & rest & Hi)].
  - rewrite Hi, Hla in Hpre. simpl in Hpre. rewrite Hl in Hpre.
    destruct Hpre as [k Hk]. simpl in Hk. injection Hk as Hk _.
    apply (f_equal String.length) in Hk.
    rewrite !string_length_app in Hk. simpl in Hk. lia.
  - rewrite Hi in Hlen. simpl in Hlen.
    rewrite (keep_component_app l x Hl) in Hlen. simpl in Hlen. lia.
Qed.

(** ** What the system calls change *)

Lemma node_at_lookup (f : filesystem) (p : path) :
  p ≠ [] → node_at f p = f !! p.
Proof. by destruct p. Qed.

Lemma adds_dirs_to_refl (t : path) (f : filesystem) : adds_dirs_to t f f.
Proof. intros p. by left. Qed.

Lemma adds_dirs_to_trans (t : path) (f1 f2 f3 : filesystem) :
  adds_dirs_to t f1 f2 → adds_dirs_to t f2 f3 → adds_dirs_to t f1 f3.
Proof.
  intros H12 H23 p.
  destruct (H12 p) as [E12|(N1 & D2 & P)], (H23 p) as [E23|(N2 & D3 & P')].
  - left. congruence.
  - right. rewrite <- E12. done.
  - right. rewrite E23. done.
  - congruence.
Qed.

Lemma adds_dirs_to_insert (t p : path) (f : filesystem) :
  f !! p = None → p `prefix_of` t → adds_dirs_to t f (<[p := Dir]> f).
Proof.
  intros Hnone Hpre q. destruct (decide (p = q)) as [<-|Hne].
  - right. by rewrite lookup_insert_eq.
  - left. by rewrite lookup_insert_ne.
Qed.

Lemma makedirs_from_adds (pre : path) (rest : list string) (f : filesystem) :
  adds_dirs_to (pre ++ rest) f (snd (makedirs_from pre rest f)).
Proof.
  revert pre f. induction rest as [|c rest IH]; intros pre f; simpl.
  { apply adds_dirs_to_refl. }
  assert (pre ++ [c] ≠ []) as Hne by (by destruct pre).
  assert ((pre ++ [c]) `prefix_of` (pre ++ c :: rest)) as Hpre.
  { exists rest. by rewrite <- app_assoc. }
  rewrite (node_at_lookup _ _ Hne).
  destruct rest as [|c' rest].
  - destruct (f !! (pre ++ [c])) eqn:Hf; simpl.
    + apply adds_dirs_to_refl.
    + by apply adds_dirs_to_insert.
  - specialize (IH (pre ++ [c])). rewrite <- app_assoc in IH. simpl in IH.
    destruct (f !! (pre ++ [c])) as [[]|] eqn:Hf.
    + apply IH.
    + apply adds_dirs_to_refl.
    + eapply adds_dirs_to_trans; [by apply adds_dirs_to_insert|apply IH].
Qed.

Lemma after_makedirs_adds (d : string) (f : filesystem) :
  adds_dirs_to (resolve d) f (after_makedirs d f).
Proof.
  unfold after_makedirs, os_makedirs. destruct (String.eqb d "").
  - apply adds_dirs_to_refl.
  - apply (makedirs_from_adds []).
Qed.

Lemma adds_dirs_to_lookup_Some (t p : path) (f f' : filesystem) (nd : node) :
  adds_dirs_to t f f' → f !! p = Some nd → f' !! p = Some nd.
Proof. intros H Hp. destruct (H p) as [->|(? & _)]; congruence. Qed.

Lemma adds_dirs_to_same_files (t : path) (f f' : filesystem) :
  adds_dirs_to t f f' → same_files f f'.
Proof.
  intros H p r w c. destruct (H p) as [->|(? & ? & _)]; [done|].
  split; congruence.
Qed.

Lemma adds_dirs_to_off_target (t p : path) (f f' : filesystem) :
  adds_dirs_to t f f' → ¬ p `prefix_of` t → f' !! p = f !! p.
Proof. intros H Hp. by destruct (H p) as [->|(? & ? & ?)]. Qed.

Lemma adds_dirs_to_node_at (t p : path) (f f' : filesystem) :
  adds_dirs_to t f f' → ¬ p `prefix_of` t → node_at f' p = node_at f p.
Proof.
  intros H Hp. destruct p; [done|]. simpl.
  by apply (adds_dirs_to_off_target t).
Qed.

(** Creating the lock directory leaves the lock path alone. *)
Lemma after_makedirs_lock_path (d n : string) (f : filesystem) :
  node_at (after_makedirs d f) (resolve (lock_path d n)) =
  node_at f (resolve (lock_path d n)).
Proof.
  eapply adds_dirs_to_node_at; [apply after_makedirs_adds|].
  apply lock_path_not_prefix.
Qed.

Lemma after_makedirs_readable (d n : string) (f : filesystem) :
  readable_file (after_makedirs d f) (lock_path d n) =
  readable_file f (lock_path d n).
Proof.
  unfold readable_file, open_read. by rewrite after_makedirs_lock_path.
Qed.

Lemma after_makedirs_persisted (d n : string) (f : filesystem) :
  persisted (after_makedirs d f) (lock_path d n) = persisted f (lock_path d n).
Proof.
  unfold persisted, open_read. by rewrite after_makedirs_lock_path.
Qed.

(** ** The branches of [lock], evaluated *)

Lemma run_update_twice (r : ref) (m info : metadata) (a : string)
    (f : filesystem) (h : gmap nat metadata) :
  h !! r = Some m →
  (update r info ≫= λ _, update r {[ "lock_action" := VStr a ]} ≫= λ _, ret r)
    (World f h) =
  (Returns r, World f (<[r := merged m info a]> h)).
Proof.
  intros Hr. rewrite run_bind, (run_update r info m) by done.
  cbn [fs heap set_fs set_heap].
  rewrite run_bind, (run_update r _ (dict_update m info))
    by (cbn; apply lookup_insert_eq).
  cbn [fs heap set_fs set_heap]. by rewrite insert_insert_eq.
Qed.

Lemma resolve_lock_path_nonempty (d n : string) : resolve (lock_path d n) ≠ [].
Proof.
  rewrite resolve_lock_path. intros H.
  apply (f_equal length) in H. rewrite !length_app in H. simpl in H. lia.
Qed.

(** [status]: nothing is read but the lock path, nothing is written but the
    mapping. *)
Lemma run_lock_status (d n : string) (r : ref) (m : metadata) (eu el : bool)
    (w : world) :
  heap w !! r = Some m →
  dir_ok d (fs w) = true →
  lock d n r "status" eu el w =
  (Returns r,
   World (after_makedirs d (fs w))
     (<[r := merged m
          (if readable_file (fs w) (lock_path d n)
           then return_info (VStr (lock_path d n)) "locked"
           else return_info VNone "unlocked") "status"]> (heap w))).
Proof.
  intros Hr Hd. enter_branch d n Hd.
  rewrite run_bind, run_bind, run_is_locked. cbn [fs heap].
  rewrite after_makedirs_readable.
  destruct (readable_file (fs w) (lock_path d n));
    rewrite <- run_bind; by apply run_update_twice.
Qed.

(** When the directory cannot be created, no branch is entered. *)
Lemma run_lock_dir_fails (d n : string) (r : ref) (a : string) (eu el : bool)
    (w : world) :
  dir_ok d (fs w) = false →
  ∃ en, en ≠ EEXIST ∧
    lock d n r a eu el w =
    (Raises (OSError en), set_fs (after_makedirs d (fs w)) w).
Proof.
  intros Hd. destruct (run_create_lock_dir_fail _ _ Hd) as (en & Hen & Hrun).
  exists en. split; [done|]. unfold lock. by rewrite run_bind, Hrun.
Qed.

(** An action that is none of the three raises [LockActionError], after the
    directory was created. *)
Lemma run_lock_other (d n : string) (r : ref) (a : string) (eu el : bool)
    (w : world) :
  a ≠ "status" → a ≠ "unlock" → a ≠ "lock" →
  dir_ok d (fs w) = true →
  lock d n r a eu el w =
  (Raises LockActionError, set_fs (after_makedirs d (fs w)) w).
Proof.
  intros Hs Hu Hl Hd. unfold lock.
  rewrite run_bind, (run_create_lock_dir_ok _ _ Hd).
  apply String.eqb_neq in Hs, Hu, Hl.
  cbn [LockAction_value]. rewrite Hs, Hu, Hl. by rewrite run_bind.
Qed.

(** [unlock]: the precondition, the removal, the mapping. *)
Lemma run_lock_unlock (d n : string) (r : ref) (m : metadata) (eu el : bool)
    (w : world) :
  heap w !! r = Some m →
  dir_ok d (fs w) = true →
  lock d n r "unlock" eu el w =
  if el && negb (readable_file (fs w) (lock_path d n))
  then (Raises LockFileNotPresentError, set_fs (after_makedirs d (fs w)) w)
  else
    match node_at (fs w) (resolve (lock_path d n)) with
    | Some (File _ _ _) =>
        (Returns r,
         World (delete (resolve (lock_path d n)) (after_makedirs d (fs w)))
           (<[r := merged m (return_info VNone "unlocked") "unlock"]> (heap w)))
    | _ => (Raises LockFileNotPresentError, set_fs (after_makedirs d (fs w)) w)
    end.
Proof.
  intros Hr Hd. enter_branch d n Hd.
  rewrite run_bind, run_bind.
  assert ((if el then ensure_lock (lock_path d n) else ret true)
            {| fs := after_makedirs d (fs w); heap := heap w |} =
          if el && negb (readable_file (fs w) (lock_path d n))
          then (Raises LockFileNotPresentError,
                {| fs := after_makedirs d (fs w); heap := heap w |})
          else (Returns true,
                {| fs := after_makedirs d (fs w); heap := heap w |})) as ->.
  { destruct el; [|done]. rewrite run_ensure_lock. cbn [fs].
    rewrite after_makedirs_readable. by destruct (readable_file _ _). }
  destruct (el && negb (readable_file (fs w) (lock_path d n))); [done|].
  rewrite run_bind. unfold try_except, remove_lock_file, syscall, os_remove.
  cbn [fs heap]. rewrite after_makedirs_lock_path.
  destruct (node_at (fs w) (resolve (lock_path d n))) as [[|rd wr c]|]; try done.
  unfold set_fs. cbn [fs heap].
  rewrite run_bind, run_is_locked. cbn [fs heap].
  assert (readable_file
            (delete (resolve (lock_path d n)) (after_makedirs d (fs w)))
            (lock_path d n) = false) as ->.
  { unfold readable_file, open_read.
    rewrite node_at_lookup by apply resolve_lock_path_nonempty.
    by rewrite lookup_delete_eq. }
  by apply run_update_twice.
Qed.

Lemma run_ret {A} (a : A) (w : world) : ret a w = (Returns a, w).
Proof. reflexivity. Qed.

(** [lock]: the precondition, the two writes, the verification. *)
Lemma run_lock_lock (d n : string) (r : ref) (m : metadata) (eu el : bool)
    (w : world) :
  heap w !! r = Some m →
  dir_ok d (fs w) = true →
  let f1 := after_makedirs d (fs w) in
  let lp := resolve (lock_path d n) in
  let info := return_info (VStr (lock_path d n)) "locked" in
  let doc := YamlDoc (dict_update m info) in
  lock d n r "lock" eu el w =
  if eu && readable_file (fs w) (lock_path d n)
  then (Raises LockFilePresentError, set_fs f1 w)
  else
    match node_at (fs w) lp with
    | Some (File rd true _) =>
        if rd
        then (Returns r,
              World (<[lp := File rd true doc]> f1)
                (<[r := merged m info "lock"]> (heap w)))
        else (Raises LockFileNotPresentError,
              World (<[lp := File rd true doc]> f1)
                (<[r := dict_update m info]> (heap w)))
    | Some (File _ false _) => (Raises (OSError EACCES), set_fs f1 w)
    | Some Dir => (Raises (OSError EISDIR), set_fs f1 w)
    | None =>
        match node_at f1 (parent lp) with
        | Some Dir =>
            (Returns r,
             World (<[lp := File true true doc]> f1)
               (<[r := merged m info "lock"]> (heap w)))
        | Some (File _ _ _) => (Raises (OSError ENOTDIR), set_fs f1 w)
        | None => (Raises (OSError ENOENT), set_fs f1 w)
        end
    end.
Proof.
  intros Hr Hd f1 lp info doc. enter_branch d n Hd. fold f1. fold info.
  rewrite run_bind, run_bind.
  assert ((if eu then ensure_unlock (lock_path d n) else ret true)
            {| fs := f1; heap := heap w |} =
          if eu && readable_file (fs w) (lock_path d n)
          then (Raises LockFilePresentError, {| fs := f1; heap := heap w |})
          else (Returns true, {| fs := f1; heap := heap w |})) as ->.
  { destruct eu; [|done]. rewrite run_ensure_unlock. cbn [fs].
    subst f1. rewrite after_makedirs_readable. by destruct (readable_file _ _). }
  destruct (eu && readable_file (fs w) (lock_path d n)); [done|].
  assert (lp ≠ []) as Hlp by apply resolve_lock_path_nonempty.
  assert (node_at f1 lp = node_at (fs w) lp) as Hsame
    by apply after_makedirs_lock_path.
  rewrite run_bind. unfold create_lock_file, syscall, open_append.
  cbn [fs heap]. fold lp. rewrite Hsame.
  destruct (node_at (fs w) lp) as [[|rd [] c]|] eqn:Hnode; try done.
  - (* an existing writable file *)
    unfold set_fs. cbn [fs heap].
    rewrite run_bind, (run_update r info m) by done. unfold set_heap; cbn [fs heap].
    rewrite run_bind. unfold write_to_lock_file, syscall, open_write, deref.
    cbn [fs heap]. fold (lock_path d n). fold lp.
    rewrite lookup_total_insert_eq. rewrite Hsame. fold doc.
    unfold set_fs. cbn [fs heap].
    rewrite run_bind, run_is_locked. cbn [fs heap].
    assert (readable_file (<[lp := File rd true doc]> f1) (lock_path d n) = rd)
      as ->.
    { unfold readable_file, open_read. fold lp.
      rewrite node_at_lookup, lookup_insert_eq by done. by destruct rd. }
    destruct rd; [|done]. rewrite run_ret.
    rewrite run_bind, (run_update r _ (dict_update m info))
      by (cbn; apply lookup_insert_eq).
    unfold set_heap; cbn [fs heap]. by rewrite insert_insert_eq.
  - (* no node there: the file is created in its directory *)
    unfold create_in_parent.
    destruct (node_at f1 (parent lp)) as [[|? ? ?]|]; try done.
    unfold set_fs. cbn [fs heap].
    rewrite run_bind, (run_update r info m) by done. unfold set_heap; cbn [fs heap].
    rewrite run_bind. unfold write_to_lock_file, syscall, open_write, deref.
    cbn [fs heap]. fold (lock_path d n). fold lp.
    rewrite lookup_total_insert_eq.
    rewrite (node_at_lookup _ _ Hlp), lookup_insert_eq. fold doc.
    rewrite insert_insert_eq.
    unfold set_fs. cbn [fs heap].
    rewrite run_bind, run_is_locked. cbn [fs heap].
    assert (readable_file (<[lp := File true true doc]> f1) (lock_path d n)
            = true) as ->.
    { unfold readable_file, open_read. fold lp.
      by rewrite node_at_lookup, lookup_insert_eq. }
    rewrite run_ret.
    rewrite run_bind, (run_update r _ (dict_update m info))
      by (cbn; apply lookup_insert_eq).
    unfold set_heap; cbn [fs heap]. by rewrite insert_insert_eq.
Qed.

(** ** A directory that is already there *)

Lemma makedirs_from_settled (pre : path) (rest : list string) (f : filesystem) :
  settled pre rest f = true → makedirs_from pre rest f = (Some EEXIST, f).
Proof.
  revert pre. induction rest as [|c rest IH]; intros pre; simpl; [done|].
  destruct rest as [|c' rest].
  - intros [nd ->]%bool_decide_eq_true. done.
  - destruct (node_at f (pre ++ [c])) as [[]|]; try done. apply IH.
Qed.

Lemma settled_after_makedirs (pre : path) (rest : list string) (f : filesystem) :
  match fst (makedirs_from pre rest f) with
  | None | Some EEXIST => true
  | Some _ => false
  end = true →
  settled pre rest (snd (makedirs_from pre rest f)) = true.
Proof.
  revert pre f. induction rest as [|c rest IH]; intros pre f; [done|].
  assert (pre ++ [c] ≠ []) as Hne by (by destruct pre).
  cbn [makedirs_from settled].
  destruct rest as [|c' rest].
  - intros _. destruct (node_at f (pre ++ [c])) eqn:Hn; cbn [snd].
    + apply bool_decide_eq_true. rewrite Hn. eauto.
    + apply bool_decide_eq_true.
      rewrite node_at_lookup, lookup_insert_eq by done. eauto.
  - pose proof (makedirs_from_adds (pre ++ [c]) (c' :: rest)) as Hadd.
    destruct (node_at f (pre ++ [c])) as [[]|] eqn:Hn; try done.
    + intros Hok. rewrite node_at_lookup in Hn |- * by done.
      rewrite (adds_dirs_to_lookup_Some _ _ _ _ _ (Hadd f) Hn).
      by apply IH.
    + intros Hok. rewrite node_at_lookup by done.
      rewrite (adds_dirs_to_lookup_Some _ _ _ _ Dir (Hadd _))
        by apply lookup_insert_eq.
      by apply IH.
Qed.

Lemma settled_agree (pre : path) (rest : list string) (f f' : filesystem) :
  (∀ q, q `prefix_of` (pre ++ rest) → node_at f' q = node_at f q) →
  settled pre rest f = true → settled pre rest f' = true.
Proof.
  revert pre. induction rest as [|c rest IH]; intros pre Hag; [done|].
  cbn [settled].
  assert (node_at f' (pre ++ [c]) = node_at f (pre ++ [c])) as ->.
  { apply Hag. exists rest. by rewrite <- app_assoc. }
  destruct rest as [|c' rest]; [done|].
  destruct (node_at f (pre ++ [c])) as [[]|]; try done.
  apply IH. intros q Hq. apply Hag. by rewrite <- app_assoc in Hq.
Qed.

Lemma dir_exists_makedirs (d : string) (f : filesystem) :
  dir_exists d f = true → os_makedirs d f = (Some EEXIST, f).
Proof.
  unfold dir_exists, os_makedirs. intros [Hd Hs]%andb_true_iff.
  destruct (String.eqb d ""); [done|]. by apply makedirs_from_settled.
Qed.

Lemma dir_exists_ok (d : string) (f : filesystem) :
  dir_exists d f = true → dir_ok d f = true.
Proof. intros H. unfold dir_ok. by rewrite (dir_exists_makedirs _ _ H). Qed.

Lemma dir_exists_after (d : string) (f : filesystem) :
  dir_exists d f = true → after_makedirs d f = f.
Proof. intros H. unfold after_makedirs. by rewrite (dir_exists_makedirs _ _ H). Qed.

(** Once [create_lock_dir] has returned, the directory is there. *)
Lemma dir_ok_exists_after (d : string) (f : filesystem) :
  dir_ok d f = true → dir_exists d (after_makedirs d f) = true.
Proof.
  unfold dir_ok, dir_exists, after_makedirs, os_makedirs.
  destruct (String.eqb d ""); [done|]. apply settled_after_makedirs.
Qed.

(** Writing or removing the lock file does not disturb the directory. *)
Lemma dir_exists_change_lock_path (d n : string) (f f' : filesystem) :
  same_except (resolve (lock_path d n)) f f' →
  dir_exists d f = true → dir_exists d f' = true.
Proof.
  unfold dir_exists. intros Hsame [Hd Hs]%andb_true_iff.
  apply andb_true_iff. split; [done|].
  apply (settled_agree [] _ f); [|done].
  intros q Hq. destruct q as [|c q]; [done|]. simpl. apply Hsame.
  intros Heq. rewrite Heq in Hq. by apply (lock_path_not_prefix d n).
Qed.

Lemma same_except_insert (p : path) (nd : node) (f : filesystem) :
  same_except p f (<[p := nd]> f).
Proof. intros q Hq. by rewrite lookup_insert_ne. Qed.

Lemma same_except_delete (p : path) (f : filesystem) :
  same_except p f (delete p f).
Proof. intros q Hq. by rewrite lookup_delete_ne. Qed.

(** ** Lock files inside their directory *)

Lemma parent_snoc (p : path) (c : string) : parent (p ++ [c]) = p.
Proof. apply removelast_last. Qed.

Lemma well_formed_ancestor (f : filesystem) (p q : path) (nd : node) :
  well_formed f →
  f !! (p ++ q) = Some nd → p ≠ [] → q ≠ [] →
  f !! p = Some Dir.
Proof.
  intros Hwf Hnd Hp. revert nd Hnd.
  induction q as [|x xs IH] using rev_ind; intros nd Hnd Hq; [done|].
  pose proof (Hwf _ _ Hnd) as Hpar.
  rewrite app_assoc, parent_snoc in Hpar.
  rewrite node_at_lookup in Hpar by (by destruct p).
  destruct (decide (xs = [])) as [->|Hxs].
  - by rewrite app_nil_r in Hpar.
  - by apply (IH Dir).
Qed.

Lemma well_formed_ancestors (f : filesystem) (pre : path)
    (rest more : list string) (nd : node) :
  well_formed f →
  f !! (pre ++ rest ++ more) = Some nd →
  more ≠ [] →
  settled pre rest f = true.
Proof.
  intros Hwf. revert pre. induction rest as [|c rest IH]; intros pre Hnd Hmore.
  { done. }
  assert (f !! (pre ++ [c]) = Some Dir) as Hc.
  { apply (well_formed_ancestor f _ (rest ++ more) nd); try done.
    - by rewrite <- app_assoc.
    - by destruct pre.
    - by destruct rest, more. }
  cbn [settled]. rewrite node_at_lookup by (by destruct pre). rewrite Hc.
  destruct rest as [|c' rest].
  - apply bool_decide_eq_true. eauto.
  - apply IH; [|done]. by rewrite <- app_assoc.
Qed.

Lemma resolve_app_slash (d s : string) :
  resolve (d +:+ "/" +:+ s) = resolve d ++ resolve s.
Proof.
  unfold resolve. rewrite split_slash_app.
  change ("/" +:+ s) with (String "/"%char s).
  cbn [split_slash Ascii.eqb Bool.eqb].
  rewrite (split_slash_init_last "" d), !List.filter_app.
  cbn [List.filter].
  destruct (keep_component (split_last "" d)); by rewrite <- app_assoc.
Qed.

(** With the separator at the end of the directory string, the lock file
    lies in the directory: if the file is there, so is the directory. *)
Lemma locked_inside_directory (d n : string) (f : filesystem) :
  well_formed f →
  readable_file f (lock_path (d +:+ "/") n) = true →
  dir_exists (d +:+ "/") f = true.
Proof.
  intros Hwf Hl. unfold dir_exists. apply andb_true_iff. split.
  { by destruct d. }
  pose proof (resolve_lock_path_nonempty (d +:+ "/") n) as Hne.
  unfold readable_file, open_read in Hl.
  rewrite node_at_lookup in Hl by done.
  destruct (f !! resolve (lock_path (d +:+ "/") n)) as [nd|] eqn:Hnd; [|done].
  unfold lock_path in Hnd, Hne. rewrite string_app_assoc in Hnd, Hne.
  rewrite resolve_app_slash in Hnd, Hne.
  replace (d +:+ "/") with (d +:+ "/" +:+ "") by (by rewrite string_app_nil_r).
  rewrite resolve_app_slash. change (resolve "") with (@nil string).
  rewrite app_nil_r.
  assert (resolve (n +:+ ".lock") ≠ []) as Hmore.
  { pose proof (resolve_lock_path_nonempty "" n) as H. exact H. }
  apply (well_formed_ancestors f [] (resolve d) (resolve (n +:+ ".lock")) nd);
    done.
Qed.

(** ** Dictionaries after a merge *)

Lemma dict_update_lookup_new (d other : metadata) (k : string) (v : value) :
  other !! k = Some v → dict_update d other !! k = Some v.
Proof. intros H. unfold dict_update. by apply lookup_union_Some_l. Qed.

Lemma dict_update_lookup_old (d other : metadata) (k : string) :
  other !! k = None → dict_update d other !! k = d !! k.
Proof. intros H. unfold dict_update. by apply lookup_union_r. Qed.

Lemma return_info_location (l : value) (s : string) :
  return_info l s !! "lock_file_location" = Some l.
Proof. unfold return_info. by rewrite lookup_insert_eq. Qed.

Lemma return_info_status (l : value) (s : string) :
  return_info l s !! "lock_file_status" = Some (VStr s).
Proof.
  unfold return_info. rewrite lookup_insert_ne by done.
  by rewrite lookup_singleton_eq.
Qed.

Lemma return_info_other (l : value) (s k : string) :
  k ≠ "lock_file_location" → k ≠ "lock_file_status" →
  return_info l s !! k = None.
Proof.
  intros H1 H2. unfold return_info. rewrite lookup_insert_ne by done.
  by rewrite lookup_singleton_ne.
Qed.

Lemma merged_action (m info : metadata) (a : string) :
  merged m info a !! "lock_action" = Some (VStr a).
Proof.
  unfold merged. apply dict_update_lookup_new. by rewrite lookup_singleton_eq.
Qed.

Lemma merged_other (m info : metadata) (a k : string) :
  k ≠ "lock_action" → merged m info a !! k = dict_update m info !! k.
Proof.
  intros H. unfold merged. apply dict_update_lookup_old.
  by rewrite lookup_singleton_ne.
Qed.

Lemma persisted_insert (f : filesystem) (d n : string) (wr : bool)
    (doc : metadata) :
  persisted (<[resolve (lock_path d n) := File true wr (YamlDoc doc)]> f)
    (lock_path d n) = Some doc.
Proof.
  unfold persisted, open_read.
  rewrite node_at_lookup by apply resolve_lock_path_nonempty.
  by rewrite lookup_insert_eq.
Qed.

Lemma deref_insert (r : ref) (m : metadata) (f : filesystem)
    (h : gmap nat metadata) :
  deref r (World f (<[r := m]> h)) = m.
Proof. unfold deref. cbn. by rewrite lookup_total_insert_eq. Qed.

(** ** The lock action *)

(** C1, as the code has it.  When the lock action returns, the lock file
    holds the mapping that was passed in, merged with
    [lock_file_location] (the lock path) and [lock_file_status: "locked"]:
    every supplied pair is in the file, except that a supplied
    [lock_file_location] or [lock_file_status] is overridden.  The
    [lock_action] entry is added to the returned mapping only after the file
    has been written, so the file has a [lock_action] entry exactly when the
    mapping passed in had one, with that value. *)
Theorem lock_persists_merged_metadata (d n : string) (r r' : ref)
    (m : metadata) (eu el : bool) (w w' : world) :
  heap w !! r = Some m →
  lock d n r "lock" eu el w = (Returns r', w') →
  let doc := dict_update m (return_info (VStr (lock_path d n)) "locked") in
  persisted (fs w') (lock_path d n) = Some doc ∧
  (∀ k v, m !! k = Some v →
     k ≠ "lock_file_location" → k ≠ "lock_file_status" → doc !! k = Some v) ∧
  doc !! "lock_file_status" = Some (VStr "locked") ∧
  doc !! "lock_file_location" = Some (VStr (lock_path d n)) ∧
  doc !! "lock_action" = m !! "lock_action" ∧
  r' = r ∧
  deref r w' !! "lock_action" = Some (VStr "lock").
Proof.
  intros Hr Hrun doc.
  assert (persisted (fs w') (lock_path d n) = Some doc ∧ r' = r ∧
          deref r w' !! "lock_action" = Some (VStr "lock")) as (Hp & -> & Ha).
  { destruct (dir_ok d (fs w)) eqn:Hd.
    - rewrite (run_lock_lock d n r m eu el w Hr Hd) in Hrun.
      destruct (eu && readable_file (fs w) (lock_path d n)); [done|].
      destruct (node_at (fs w) (resolve (lock_path d n)))
        as [[|[] [] c]|]; try done.
      + injection Hrun as <- <-. cbn [fs].
        rewrite persisted_insert, deref_insert. by rewrite merged_action.
      + destruct (node_at (after_makedirs d (fs w))
                    (parent (resolve (lock_path d n)))) as [[]|]; try done.
        injection Hrun as <- <-. cbn [fs].
        rewrite persisted_insert, deref_insert. by rewrite merged_action.
    - destruct (run_lock_dir_fails d n r "lock" eu el w Hd) as (en & _ & He).
      congruence. }
  repeat split; try done.
  - intros k v Hk H1 H2. subst doc.
    rewrite dict_update_lookup_old by (by apply return_info_other). done.
  - apply dict_update_lookup_new, return_info_status.
  - apply dict_update_lookup_new, return_info_location.
  - by apply dict_update_lookup_old, return_info_other.
Qed.

(** C10, as the code has it.  On a resource that is already locked, whose
    lock file this process may also write, the lock action without
    [ensure_unlock_state] returns (as long as creating the directory does not
    fail) and the lock file then holds the newly merged mapping in place of
    what it held: the previous holder's metadata is overwritten without
    notice.  Nothing else changes but directories that [create_lock_dir]
    added. *)
Theorem relock_overwrites (d n : string) (r : ref) (m : metadata) (el : bool)
    (c : content) (w : world) :
  heap w !! r = Some m →
  dir_ok d (fs w) = true →
  node_at (fs w) (resolve (lock_path d n)) = Some (File true true c) →
  let info := return_info (VStr (lock_path d n)) "locked" in
  ∃ w',
    lock d n r "lock" false el w = (Returns r, w') ∧
    persisted (fs w') (lock_path d n) = Some (dict_update m info) ∧
    fs w' = <[resolve (lock_path d n) :=
                File true true (YamlDoc (dict_update m info))]>
              (after_makedirs d (fs w)) ∧
    deref r w' = merged m info "lock".
Proof.
  intros Hr Hd Hnode info. eexists. split.
  - rewrite (run_lock_lock d n r m false el w Hr Hd). cbn [andb].
    rewrite Hnode. reflexivity.
  - cbn [fs]. rewrite persisted_insert, deref_insert. done.
Qed.

(** ** The status action *)

(** C5, as the code has it.  Whenever creating the directory does not fail,
    the status action returns the mapping it was given, merged with
    [lock_file_status] -- ["locked"] exactly when the lock path can be opened
    for reading -- and [lock_file_location] -- the lock path when locked,
    [None] otherwise -- and then with [lock_action: "status"].  The two flags
    play no role.  What is at the lock path does not change and no file is
    created, removed or rewritten: the only change there can be is the
    directories [create_lock_dir] adds, and there is none when the directory
    exists. *)
Theorem status_reports_without_mutation (d n : string) (r : ref)
    (m : metadata) (eu el : bool) (w : world) :
  heap w !! r = Some m →
  dir_ok d (fs w) = true →
  let locked := readable_file (fs w) (lock_path d n) in
  let info := if locked then return_info (VStr (lock_path d n)) "locked"
              else return_info VNone "unlocked" in
  ∃ w',
    lock d n r "status" eu el w = (Returns r, w') ∧
    deref r w' = merged m info "status" ∧
    deref r w' !! "lock_file_status" =
      Some (VStr (if locked then "locked" else "unlocked")) ∧
    deref r w' !! "lock_file_location" =
      Some (if locked then VStr (lock_path d n) else VNone) ∧
    deref r w' !! "lock_action" = Some (VStr "status") ∧
    (∀ k, k ≠ "lock_file_status" → k ≠ "lock_file_location" →
          k ≠ "lock_action" → deref r w' !! k = m !! k) ∧
    node_at (fs w') (resolve (lock_path d n)) =
      node_at (fs w) (resolve (lock_path d n)) ∧
    same_files (fs w) (fs w') ∧
    adds_dirs_to (resolve d) (fs w) (fs w') ∧
    (dir_exists d (fs w) = true → fs w' = fs w).
Proof.
  intros Hr Hd locked info. eexists. split.
  { apply (run_lock_status d n r m eu el w Hr Hd). }
  fold locked. fold info. cbn [fs]. rewrite deref_insert.
  split_and!.
  - done.
  - rewrite merged_other by done. subst info.
    destruct locked; apply dict_update_lookup_new, return_info_status.
  - rewrite merged_other by done. subst info.
    destruct locked; apply dict_update_lookup_new, return_info_location.
  - apply merged_action.
  - intros k H1 H2 H3. rewrite merged_other by done. subst info.
    destruct locked; by apply dict_update_lookup_old, return_info_other.
  - apply after_makedirs_lock_path.
  - eapply adds_dirs_to_same_files, after_makedirs_adds.
  - apply after_makedirs_adds.
  - apply dir_exists_after.
Qed.

(** ** The precondition flags *)

Lemma run_lock_require_unlocked (d n : string) (r : ref) (el : bool) (w : world) :
  dir_ok d (fs w) = true →
  readable_file (fs w) (lock_path d n) = true →
  lock d n r "lock" true el w =
  (Raises LockFilePresentError, set_fs (after_makedirs d (fs w)) w).
Proof.
  intros Hd Hl. enter_branch d n Hd.
  rewrite run_bind, run_bind, run_ensure_unlock. cbn [fs].
  by rewrite after_makedirs_readable, Hl.
Qed.

Lemma run_lock_require_locked (d n : string) (r : ref) (eu : bool) (w : world) :
  dir_ok d (fs w) = true →
  readable_file (fs w) (lock_path d n) = false →
  lock d n r "unlock" eu true w =
  (Raises LockFileNotPresentError, set_fs (after_makedirs d (fs w)) w).
Proof.
  intros Hd Hl. enter_branch d n Hd.
  rewrite run_bind, run_bind, run_ensure_lock. cbn [fs].
  by rewrite after_makedirs_readable, Hl.
Qed.

(** C6, as the code has it.  On a resource that is already locked, the lock
    action with [ensure_unlock_state] raises [LockFilePresentError] (as long
    as creating the directory does not fail) before it touches any file: the
    lock file and its content, every other file and the mapping are as they
    were.  [create_lock_dir] has run before the check, so directories may
    have been added; when the directory exists, nothing at all has changed,
    and it does exist when the directory string ends with the separator,
    for then the lock file lies in it. *)
Theorem lock_refused_when_locked (d n : string) (r : ref) (el : bool)
    (w : world) :
  readable_file (fs w) (lock_path d n) = true →
  dir_ok d (fs w) = true →
  ∃ w',
    lock d n r "lock" true el w = (Raises LockFilePresentError, w') ∧
    heap w' = heap w ∧
    node_at (fs w') (resolve (lock_path d n)) =
      node_at (fs w) (resolve (lock_path d n)) ∧
    persisted (fs w') (lock_path d n) = persisted (fs w) (lock_path d n) ∧
    same_files (fs w) (fs w') ∧
    adds_dirs_to (resolve d) (fs w) (fs w') ∧
    (dir_exists d (fs w) = true → w' = w) ∧
    (well_formed (fs w) → ∀ d', d = d' +:+ "/" → w' = w).
Proof.
  intros Hl Hd. eexists. split.
  { by apply run_lock_require_unlocked. }
  assert (dir_exists d (fs w) = true →
          set_fs (after_makedirs d (fs w)) w = w) as Hsame.
  { intros He. rewrite (dir_exists_after _ _ He). by destruct w. }
  cbn [fs heap set_fs]. split_and!.
  - done.
  - apply after_makedirs_lock_path.
  - apply after_makedirs_persisted.
  - eapply adds_dirs_to_same_files, after_makedirs_adds.
  - apply after_makedirs_adds.
  - apply Hsame.
  - intros Hwf d' ->. apply Hsame. by apply (locked_inside_directory d' n).
Qed.

(** C7, as the code has it.  On a resource that is not locked, the unlock
    action with [ensure_lock_state] raises [LockFileNotPresentError] (as long
    as creating the directory does not fail) and touches no file: what is at
    the lock path, every file and the mapping are as they were.
    [create_lock_dir] has run before the check, so directories may have been
    added; when the directory exists, nothing at all has changed. *)
Theorem unlock_refused_when_unlocked (d n : string) (r : ref) (eu : bool)
    (w : world) :
  readable_file (fs w) (lock_path d n) = false →
  dir_ok d (fs w) = true →
  ∃ w',
    lock d n r "unlock" eu true w = (Raises LockFileNotPresentError, w') ∧
    heap w' = heap w ∧
    node_at (fs w') (resolve (lock_path d n)) =
      node_at (fs w) (resolve (lock_path d n)) ∧
    same_files (fs w) (fs w') ∧
    adds_dirs_to (resolve d) (fs w) (fs w') ∧
    (dir_exists d (fs w) = true → w' = w).
Proof.
  intros Hl Hd. eexists. split.
  { by apply run_lock_require_locked. }
  cbn [fs heap set_fs]. split_and!.
  - done.
  - apply after_makedirs_lock_path.
  - eapply adds_dirs_to_same_files, after_makedirs_adds.
  - apply after_makedirs_adds.
  - intros He. rewrite (dir_exists_after _ _ He). by destruct w.
Qed.

(** ** Any other action *)

(** C9, as the code has it.  An action that is none of ["status"],
    ["lock"], ["unlock"] never returns and never creates, removes or rewrites
    a file, whatever the state before; the mapping is not touched.  It raises
    [LockActionError] whenever creating the directory does not fail, and the
    [OSError] of [os.makedirs] otherwise.  [create_lock_dir] runs before the
    action is looked at, so directories may have been added; when the
    directory exists, nothing at all has changed. *)
Theorem other_action_raises (d n : string) (r : ref) (a : string)
    (eu el : bool) (w : world) :
  a ≠ "status" → a ≠ "lock" → a ≠ "unlock" →
  ∃ e w',
    lock d n r a eu el w = (Raises e, w') ∧
    (dir_ok d (fs w) = true → e = LockActionError) ∧
    (dir_ok d (fs w) = false → ∃ en, en ≠ EEXIST ∧ e = OSError en) ∧
    heap w' = heap w ∧
    same_files (fs w) (fs w') ∧
    adds_dirs_to (resolve d) (fs w) (fs w') ∧
    (dir_exists d (fs w) = true → e = LockActionError ∧ w' = w).
Proof.
  intros Hs Hl Hu.
  assert (∃ e, lock d n r a eu el w =
               (Raises e, set_fs (after_makedirs d (fs w)) w) ∧
               (dir_ok d (fs w) = true → e = LockActionError) ∧
               (dir_ok d (fs w) = false → ∃ en, en ≠ EEXIST ∧ e = OSError en))
    as (e & Hrun & Hok & Hfail).
  { destruct (dir_ok d (fs w)) eqn:Hd.
    - exists LockActionError. split_and!; [|done..].
      by apply run_lock_other.
    - destruct (run_lock_dir_fails d n r a eu el w Hd) as (en & Hen & Hrun).
      exists (OSError en). split_and!; [done..|]. eauto. }
  exists e, (set_fs (after_makedirs d (fs w)) w).
  cbn [fs heap set_fs]. split_and!; try done.
  - eapply adds_dirs_to_same_files, after_makedirs_adds.
  - apply after_makedirs_adds.
  - intros He. split; [by apply Hok, dir_exists_ok|].
    rewrite (dir_exists_after _ _ He). by destruct w.
Qed.

(** ** Lock, then unlock *)

Lemma lock_returns_file (d n : string) (r r' : ref) (m : metadata)
    (eu el : bool) (w w' : world) :
  heap w !! r = Some m →
  lock d n r "lock" eu el w = (Returns r', w') →
  dir_ok d (fs w) = true ∧
  ∃ wr doc, fs w' = <[resolve (lock_path d n) := File true wr doc]>
                      (after_makedirs d (fs w)).
Proof.
  intros Hr Hrun. destruct (dir_ok d (fs w)) eqn:Hd.
  - split; [done|].
    rewrite (run_lock_lock d n r m eu el w Hr Hd) in Hrun.
    destruct (eu && readable_file (fs w) (lock_path d n)); [done|].
    destruct (node_at (fs w) (resolve (lock_path d n)))
      as [[|[] [] c]|]; try done.
    + injection Hrun as <- <-. cbn [fs]. eauto.
    + destruct (node_at (after_makedirs d (fs w))
                  (parent (resolve (lock_path d n)))) as [[]|]; try done.
      injection Hrun as <- <-. cbn [fs]. eauto.
  - destruct (run_lock_dir_fails d n r "lock" eu el w Hd) as (en & _ & He).
    congruence.
Qed.

(** C8, as the code has it.  After a lock action that returned and an unlock
    action on the same resource that returned, nothing is at the lock path
    and the file system is the one [create_lock_dir] left at the start of the
    lock call, less the lock path: every other file is exactly as before the
    lock call.  The file system as a whole is as before the lock call when
    the directory existed and nothing was at the lock path then; a directory
    the lock call created stays, and a lock file that was already there is
    gone. *)
Theorem lock_unlock_round_trip (d n : string) (r1 r1' r2 r2' : ref)
    (m1 m2 : metadata) (eu1 el1 eu2 el2 : bool) (w w1 w2 : world) :
  heap w !! r1 = Some m1 →
  lock d n r1 "lock" eu1 el1 w = (Returns r1', w1) →
  heap w1 !! r2 = Some m2 →
  lock d n r2 "unlock" eu2 el2 w1 = (Returns r2', w2) →
  node_at (fs w2) (resolve (lock_path d n)) = None ∧
  fs w2 = delete (resolve (lock_path d n)) (after_makedirs d (fs w)) ∧
  same_except (resolve (lock_path d n)) (after_makedirs d (fs w)) (fs w2) ∧
  (dir_exists d (fs w) = true →
   node_at (fs w) (resolve (lock_path d n)) = None →
   fs w2 = fs w).
Proof.
  intros Hr1 Hlock Hr2 Hunlock.
  pose proof (resolve_lock_path_nonempty d n) as Hlp.
  destruct (lock_returns_file _ _ _ _ _ _ _ _ _ Hr1 Hlock)
    as (Hd & wr & doc & Hfs1).
  assert (dir_exists d (fs w1) = true) as He1.
  { rewrite Hfs1.
    eapply dir_exists_change_lock_path; [apply same_except_insert|].
    by apply dir_ok_exists_after. }
  rewrite (run_lock_unlock d n r2 m2 eu2 el2 w1 Hr2 (dir_exists_ok _ _ He1))
    in Hunlock.
  destruct (el2 && negb (readable_file (fs w1) (lock_path d n))); [done|].
  rewrite (dir_exists_after _ _ He1) in Hunlock.
  rewrite Hfs1, node_at_lookup, lookup_insert_eq in Hunlock by done.
  injection Hunlock as <- <-. cbn [fs].
  rewrite delete_insert_eq.
  split_and!.
  - rewrite node_at_lookup by done. apply lookup_delete_eq.
  - done.
  - apply same_except_delete.
  - intros He Hnone. rewrite (dir_exists_after _ _ He).
    apply delete_id. by rewrite node_at_lookup in Hnone.
Qed.

(** ** The lock path *)

(** C4, as the code has it.  The path every action works on is the plain
    concatenation of the directory string, the resource name and [".lock"];
    no separator is put in.  Status looks at that path and reports it; lock
    leaves a readable file at that path, changes no other path and reports
    it; unlock removes the file at that path and changes no other path.  The
    path reads [<directory>/<resource_name>.lock] when the directory string
    itself ends with the separator. *)
Theorem lock_file_is_at_concatenation (d n : string) (r : ref) (m : metadata)
    (eu el : bool) (w : world) :
  heap w !! r = Some m →
  dir_ok d (fs w) = true →
  let name := d +:+ n +:+ ".lock" in
  (∃ w', lock d n r "status" eu el w = (Returns r, w') ∧
         deref r w' !! "lock_file_location" =
           Some (if readable_file (fs w) name then VStr name else VNone)) ∧
  (∀ r' w', lock d n r "lock" eu el w = (Returns r', w') →
     readable_file (fs w') name = true ∧
     same_except (resolve name) (after_makedirs d (fs w)) (fs w') ∧
     deref r w' !! "lock_file_location" = Some (VStr name)) ∧
  (∀ r' w', lock d n r "unlock" eu el w = (Returns r', w') →
     (∃ rd wr c, node_at (fs w) (resolve name) = Some (File rd wr c)) ∧
     node_at (fs w') (resolve name) = None ∧
     same_except (resolve name) (after_makedirs d (fs w)) (fs w')) ∧
  (∀ d', d = d' +:+ "/" → name = d' +:+ "/" +:+ n +:+ ".lock").
Proof.
  intros Hr Hd name.
  assert (name = lock_path d n) as Hname by done.
  pose proof (resolve_lock_path_nonempty d n) as Hlp.
  split_and!.
  - eexists. split; [apply (run_lock_status d n r m eu el w Hr Hd)|].
    rewrite deref_insert, merged_other by done. rewrite Hname.
    destruct (readable_file (fs w) (lock_path d n));
      apply dict_update_lookup_new, return_info_location.
  - intros r' w' Hrun. rewrite Hname.
    rewrite (run_lock_lock d n r m eu el w Hr Hd) in Hrun.
    destruct (eu && readable_file (fs w) (lock_path d n)); [done|].
    assert (∀ wr doc,
      readable_file
        (<[resolve (lock_path d n) := File true wr doc]>
           (after_makedirs d (fs w))) (lock_path d n) = true) as Hread.
    { intros wr doc. unfold readable_file, open_read.
      by rewrite node_at_lookup, lookup_insert_eq. }
    assert (deref r
              (World (fs w')
                 (<[r := merged m (return_info (VStr (lock_path d n)) "locked")
                           "lock"]> (heap w)))
              !! "lock_file_location" = Some (VStr (lock_path d n))) as Hloc.
    { rewrite deref_insert, merged_other by done.
      apply dict_update_lookup_new, return_info_location. }
    destruct (node_at (fs w) (resolve (lock_path d n)))
      as [[|[] [] c]|]; try done.
    + injection Hrun as <- <-. cbn [fs] in *.
      split_and!; [apply Hread|apply same_except_insert|apply Hloc].
    + destruct (node_at (after_makedirs d (fs w))
                  (parent (resolve (lock_path d n)))) as [[]|]; try done.
      injection Hrun as <- <-. cbn [fs] in *.
      split_and!; [apply Hread|apply same_except_insert|apply Hloc].
  - intros r' w' Hrun. rewrite Hname.
    rewrite (run_lock_unlock d n r m eu el w Hr Hd) in Hrun.
    destruct (el && negb (readable_file (fs w) (lock_path d n))); [done|].
    destruct (node_at (fs w) (resolve (lock_path d n)))
      as [[|rd wr c]|]; try done.
    injection Hrun as <- <-. cbn [fs]. split_and!.
    + eauto.
    + rewrite node_at_lookup by done. apply lookup_delete_eq.
    + apply same_except_delete.
  - intros d' ->. subst name. by rewrite string_app_assoc.
Qed.

(** ** The kinds of error *)

(** C2, as the code has it.  The precondition failure of unlock (not locked)
    and the failed verification after the lock file was written are raised
    as one and the same kind, [LockFileNotPresentError]; that kind, the
    [LockFilePresentError] of a lock refused on a locked resource and the
    [LockActionError] of an unknown action are three different kinds. *)
Theorem not_present_error_is_shared (d n : string) (r : ref) (m : metadata)
    (w : world) :
  heap w !! r = Some m →
  dir_ok d (fs w) = true →
  (readable_file (fs w) (lock_path d n) = false →
   ∀ eu, fst (lock d n r "unlock" eu true w) = Raises LockFileNotPresentError) ∧
  (∀ c eu el,
     node_at (fs w) (resolve (lock_path d n)) = Some (File false true c) →
     fst (lock d n r "lock" eu el w) = Raises LockFileNotPresentError ∧
     node_at (fs (snd (lock d n r "lock" eu el w))) (resolve (lock_path d n)) =
       Some (File false true
               (YamlDoc (dict_update m
                           (return_info (VStr (lock_path d n)) "locked"))))) ∧
  (readable_file (fs w) (lock_path d n) = true →
   ∀ el, fst (lock d n r "lock" true el w) = Raises LockFilePresentError) ∧
  (∀ a eu el, a ≠ "status" → a ≠ "unlock" → a ≠ "lock" →
     fst (lock d n r a eu el w) = Raises LockActionError) ∧
  LockFileNotPresentError ≠ LockFilePresentError ∧
  LockFileNotPresentError ≠ LockActionError ∧
  LockFilePresentError ≠ LockActionError.
Proof.
  intros Hr Hd. split_and!; try done.
  - intros Hl eu. by rewrite run_lock_require_locked.
  - intros c eu el Hnode.
    assert (readable_file (fs w) (lock_path d n) = false) as Hl.
    { unfold readable_file, open_read. by rewrite Hnode. }
    rewrite (run_lock_lock d n r m eu el w Hr Hd), Hl, andb_false_r, Hnode.
    cbn [fst snd fs]. split; [done|].
    rewrite node_at_lookup by apply resolve_lock_path_nonempty.
    apply lookup_insert_eq.
  - intros Hl el. by rewrite run_lock_require_unlocked.
  - intros a eu el Hs Hu Hl. by rewrite run_lock_other.
Qed.

(** ** The claims that fail, at concrete inputs *)

(** C1 fails: after locking with [maintenance], the lock file holds no
    [lock_action] entry; only the returned mapping has one. *)
Lemma lock_action_not_in_lock_file :
  let run := lock "/tmp/locks/" "web" caller_data "lock" false false w_unlocked in
  fst run = Returns caller_data ∧
  persisted (fs (snd run)) "/tmp/locks/web.lock" = Some maintenance_locked ∧
  maintenance_locked !! "lock_action" = None ∧
  deref caller_data (snd run) !! "lock_action" = Some (VStr "lock").
Proof. cbv zeta. compute_done. Qed.

(** C2 fails: unlocking with [ensure_lock_state] what is not locked,
    removing a lock file that is not there, and locking over a file that can
    be written but not read back all raise the same
    [LockFileNotPresentError]. *)
Lemma three_failures_one_kind :
  fst (lock "/tmp/locks/" "web" caller_data "unlock" false true w_unlocked)
    = Raises LockFileNotPresentError ∧
  fst (lock "/tmp/locks/" "web" caller_data "unlock" false false w_unlocked)
    = Raises LockFileNotPresentError ∧
  fst (lock "/tmp/locks/" "web" caller_data "lock" false false
         (w_held false true))
    = Raises LockFileNotPresentError.
Proof. cbv zeta. compute_done. Qed.

(** C4 fails: with the directory string ["/tmp/locks"] the lock file of
    ["web"] is [/tmp/locksweb.lock], beside the directory and not in it. *)
Lemma lock_path_without_separator :
  let run := lock "/tmp/locks" "web" caller_data "lock" false false w_unlocked in
  fst run = Returns caller_data ∧
  deref caller_data (snd run) !! "lock_file_location"
    = Some (VStr "/tmp/locksweb.lock") ∧
  readable_file (fs (snd run)) "/tmp/locksweb.lock" = true ∧
  path_exists (fs (snd run)) "/tmp/locks/web.lock" = false ∧
  lock_path "/tmp/locks" "web" ≠ "/tmp/locks" +:+ "/" +:+ "web" +:+ ".lock".
Proof. cbv zeta. compute_done. Qed.

(** C5 fails: status raises when the directory cannot be created -- here
    an ancestor of the directory is a regular file -- and it reports
    ["unlocked"] with no location for a lock path that exists but cannot be
    read. *)
Lemma status_raises_or_misses_the_file :
  fst (lock "/tmp/locks/web.lock/sub/" "db" caller_data "status" false false
         (w_held true true))
    = Raises (OSError ENOTDIR) ∧
  (let run := lock "/tmp/locks/" "web" caller_data "status" false false
                (w_held false true) in
   path_exists (fs (w_held false true)) "/tmp/locks/web.lock" = true ∧
   fst run = Returns caller_data ∧
   deref caller_data (snd run) !! "lock_file_status" = Some (VStr "unlocked") ∧
   deref caller_data (snd run) !! "lock_file_location" = Some VNone).
Proof. cbv zeta. compute_done. Qed.

(** C6 fails: with the directory string ["/tmp/locks"], the refused lock
    action has created the directory [/tmp/locks] by the time it raises; and
    with the empty directory string the same locked resource gets the
    [OSError] of [os.makedirs] instead. *)
Lemma refused_lock_created_directory :
  let run := lock "/tmp/locks" "web" caller_data "lock" true false
               w_held_beside in
  readable_file (fs w_held_beside) (lock_path "/tmp/locks" "web") = true ∧
  fst run = Raises LockFilePresentError ∧
  fs w_held_beside !! ["tmp"; "locks"] = None ∧
  fs (snd run) !! ["tmp"; "locks"] = Some Dir ∧
  fs (snd run) ≠ fs w_held_beside ∧
  readable_file (fs w_held_beside) (lock_path "" "tmp/locksweb") = true ∧
  fst (lock "" "tmp/locksweb" caller_data "lock" true false w_held_beside)
    = Raises (OSError ENOENT).
Proof. cbv zeta. compute_done. Qed.

(** C7 fails: the refused unlock action has created the directory
    [/tmp/locks] by the time it raises; and where the directory cannot be
    created -- an ancestor is a regular file -- the unlocked resource gets
    the [OSError] of [os.makedirs] instead. *)
Lemma refused_unlock_created_directory :
  let run := lock "/tmp/locks/" "web" caller_data "unlock" false true
               w_no_directory in
  readable_file (fs w_no_directory) (lock_path "/tmp/locks/" "web") = false ∧
  fst run = Raises LockFileNotPresentError ∧
  fs w_no_directory !! ["tmp"; "locks"] = None ∧
  fs (snd run) !! ["tmp"; "locks"] = Some Dir ∧
  fs (snd run) ≠ fs w_no_directory ∧
  readable_file (fs (w_held true true))
    (lock_path "/tmp/locks/web.lock/sub/" "db") = false ∧
  fst (lock "/tmp/locks/web.lock/sub/" "db" caller_data "unlock" false true
         (w_held true true))
    = Raises (OSError ENOTDIR).
Proof. cbv zeta. compute_done. Qed.

(** C8 fails: a lock file that was there before the lock call is gone after
    the round trip, and a directory the lock call created is still there. *)
Lemma round_trip_changes_directory :
  (let locked := lock "/tmp/locks/" "web" caller_data "lock" false false
                   (w_held true true) in
   let unlocked := lock "/tmp/locks/" "web" caller_data "unlock" false false
                     (snd locked) in
   fst locked = Returns caller_data ∧ fst unlocked = Returns caller_data ∧
   fs (w_held true true) !! ["tmp"; "locks"; "web.lock"]
     = Some (File true true (YamlDoc held_by_alice)) ∧
   fs (snd unlocked) !! ["tmp"; "locks"; "web.lock"] = None) ∧
  (let locked := lock "/tmp/locks/" "web" caller_data "lock" false false
                   w_no_directory in
   let unlocked := lock "/tmp/locks/" "web" caller_data "unlock" false false
                     (snd locked) in
   fst locked = Returns caller_data ∧ fst unlocked = Returns caller_data ∧
   fs w_no_directory !! ["tmp"; "locks"] = None ∧
   fs (snd unlocked) !! ["tmp"; "locks"] = Some Dir).
Proof. cbv zeta. compute_done. Qed.

(** C9 fails: when the directory cannot be created, the unknown action
    ["wipe"] raises the [OSError] of [os.makedirs], not [LockActionError]. *)
Lemma unknown_action_raises_oserror :
  fst (lock "/tmp/locks/web.lock/sub/" "db" caller_data "wipe" false false
         (w_held true true))
    = Raises (OSError ENOTDIR) ∧
  Raises (OSError ENOTDIR) ≠ @Raises ref LockActionError.
Proof. cbv zeta. compute_done. Qed.

(** C10 fails: a lock file that can be read but not written is a locked
    resource, and locking it again raises; the file keeps what it held. *)
Lemma relock_read_only_raises :
  let run := lock "/tmp/locks/" "web" caller_data "lock" false false
               (w_held true false) in
  readable_file (fs (w_held true false)) "/tmp/locks/web.lock" = true ∧
  fst run = Raises (OSError EACCES) ∧
  persisted (fs (snd run)) "/tmp/locks/web.lock" = Some held_by_alice.
Proof. cbv zeta. compute_done. Qed.

(** ** The default mapping *)

(** A mapping that holds nothing but the three entries [lock] writes is
    overwritten whole by a call that returns: what the call leaves in it is
    what it would leave in an empty mapping. *)
Lemma merged_overwrites (m : metadata) (l : value) (s a : string) :
  dom m ⊆ {[ "lock_file_location"; "lock_file_status"; "lock_action" ]} →
  merged m (return_info l s) a = merged ∅ (return_info l s) a.
Proof.
  intros Hdom. apply map_eq. intros k.
  destruct (decide (k = "lock_action")) as [->|Ha].
  { by rewrite !merged_action. }
  rewrite !merged_other by done.
  destruct (decide (k = "lock_file_location")) as [->|Hl].
  { by rewrite !(dict_update_lookup_new _ _ _ _ (return_info_location l s)). }
  destruct (decide (k = "lock_file_status")) as [->|Hs].
  { by rewrite !(dict_update_lookup_new _ _ _ _ (return_info_status l s)). }
  rewrite !dict_update_lookup_old by (by apply return_info_other).
  rewrite lookup_empty. apply not_elem_of_dom. intros Hk%Hdom.
  rewrite !elem_of_union, !elem_of_singleton in Hk. by destruct Hk as [[|]|].
Qed.

(** C3 is not what the code does.  Two calls leave [lock_data] out: a
    status call on resource ["a"], then a lock call on resource ["b"].  Both
    return the one dictionary of the [def] line.  It is empty before the
    first call and holds the first call's result when the second call
    starts; the lock file of ["b"] is written with the [lock_action:
    "status"] of the first call; and the mapping the first call returned now
    shows the location of ["b"]. *)
Theorem default_mapping_is_shared :
  let first := lock_with_default "/tmp/locks/" "a" "status" w_loaded in
  let second := lock_with_default "/tmp/locks/" "b" "lock" (snd first) in
  fst first = Returns default_lock_data ∧
  fst second = Returns default_lock_data ∧
  deref default_lock_data w_loaded = ∅ ∧
  deref default_lock_data (snd first) =
    {[ "lock_file_location" := VNone;
       "lock_file_status" := VStr "unlocked";
       "lock_action" := VStr "status" ]} ∧
  persisted (fs (snd second)) "/tmp/locks/b.lock" =
    Some {[ "lock_file_location" := VStr "/tmp/locks/b.lock";
            "lock_file_status" := VStr "locked";
            "lock_action" := VStr "status" ]} ∧
  deref default_lock_data (snd second) !! "lock_file_location"
    = Some (VStr "/tmp/locks/b.lock").
Proof. cbv zeta. compute_done. Qed.

(** ** The theorems at concrete inputs *)

Lemma lock_persists_merged_metadata_witness :
  heap w_unlocked !! caller_data = Some maintenance ∧
  lock "/tmp/locks/" "web" caller_data "lock" false false w_unlocked
    = (Returns caller_data, w_web_locked) ∧
  persisted (fs w_web_locked) (lock_path "/tmp/locks/" "web")
    = Some (dict_update maintenance
              (return_info (VStr (lock_path "/tmp/locks/" "web")) "locked")).
Proof.
  assert (heap w_unlocked !! caller_data = Some maintenance) as H1
    by compute_done.
  assert (lock "/tmp/locks/" "web" caller_data "lock" false false w_unlocked
          = (Returns caller_data, w_web_locked)) as H2 by compute_done.
  split_and!; [exact H1|exact H2|].
  exact (proj1 (lock_persists_merged_metadata _ _ _ _ _ _ _ _ _ H1 H2)).
Defined.

Lemma not_present_error_is_shared_witness :
  heap (w_held false true) !! caller_data = Some maintenance ∧
  dir_ok "/tmp/locks/" (fs (w_held false true)) = true ∧
  fst (lock "/tmp/locks/" "web" caller_data "unlock" false true
         (w_held false true)) = Raises LockFileNotPresentError ∧
  fst (lock "/tmp/locks/" "web" caller_data "lock" false false
         (w_held false true)) = Raises LockFileNotPresentError ∧
  fst (lock "/tmp/locks/" "web" caller_data "wipe" false false
         (w_held false true)) = Raises LockActionError.
Proof.
  assert (heap (w_held false true) !! caller_data = Some maintenance) as H1
    by compute_done.
  assert (dir_ok "/tmp/locks/" (fs (w_held false true)) = true) as H2
    by compute_done.
  destruct (not_present_error_is_shared "/tmp/locks/" "web" caller_data
              maintenance (w_held false true) H1 H2)
    as (Hnot & Hcreate & _ & Hother & _).
  split_and!; [exact H1|exact H2|..].
  - apply Hnot. compute_done.
  - apply (Hcreate (YamlDoc held_by_alice)). compute_done.
  - apply Hother; compute_done.
Defined.

Lemma lock_file_is_at_concatenation_witness :
  heap w_unlocked !! caller_data = Some maintenance ∧
  dir_ok "/tmp/locks" (fs w_unlocked) = true ∧
  ∃ w', lock "/tmp/locks" "web" caller_data "status" false false w_unlocked
          = (Returns caller_data, w') ∧
        deref caller_data w' !! "lock_file_location" =
          Some (if readable_file (fs w_unlocked)
                     ("/tmp/locks" +:+ "web" +:+ ".lock")
                then VStr ("/tmp/locks" +:+ "web" +:+ ".lock") else VNone).
Proof.
  assert (heap w_unlocked !! caller_data = Some maintenance) as H1
    by compute_done.
  assert (dir_ok "/tmp/locks" (fs w_unlocked) = true) as H2 by compute_done.
  split_and!; [exact H1|exact H2|].
  exact (proj1 (lock_file_is_at_concatenation "/tmp/locks" "web" caller_data
                  maintenance false false w_unlocked H1 H2)).
Defined.

Lemma status_reports_without_mutation_witness :
  heap w_web_locked !! caller_data
    = Some (merged maintenance
              (return_info (VStr "/tmp/locks/web.lock") "locked") "lock") ∧
  dir_ok "/tmp/locks/" (fs w_web_locked) = true ∧
  ∃ w', lock "/tmp/locks/" "web" caller_data "status" true true w_web_locked
          = (Returns caller_data, w') ∧
        deref caller_data w' !! "lock_file_status" = Some (VStr "locked") ∧
        fs w' = fs w_web_locked.
Proof.
  assert (heap w_web_locked !! caller_data
          = Some (merged maintenance
                    (return_info (VStr "/tmp/locks/web.lock") "locked") "lock"))
    as H1 by compute_done.
  assert (dir_ok "/tmp/locks/" (fs w_web_locked) = true) as H2 by compute_done.
  assert (readable_file (fs w_web_locked) (lock_path "/tmp/locks/" "web") = true)
    as H3 by compute_done.
  assert (dir_exists "/tmp/locks/" (fs w_web_locked) = true) as H4
    by compute_done.
  split_and!; [exact H1|exact H2|].
  destruct (status_reports_without_mutation "/tmp/locks/" "web" caller_data _
              true true w_web_locked H1 H2)
    as (w' & Hrun & _ & Hstatus & _ & _ & _ & _ & _ & _ & Hsame).
  exists w'. rewrite H3 in Hstatus. split_and!; [exact Hrun|exact Hstatus|].
  exact (Hsame H4).
Defined.

Lemma lock_refused_when_locked_witness :
  readable_file (fs w_web_locked) (lock_path "/tmp/locks/" "web") = true ∧
  dir_ok "/tmp/locks/" (fs w_web_locked) = true ∧
  lock "/tmp/locks/" "web" caller_data "lock" true false w_web_locked
    = (Raises LockFilePresentError, w_web_locked).
Proof.
  assert (readable_file (fs w_web_locked) (lock_path "/tmp/locks/" "web") = true)
    as H1 by compute_done.
  assert (dir_ok "/tmp/locks/" (fs w_web_locked) = true) as H2 by compute_done.
  assert (dir_exists "/tmp/locks/" (fs w_web_locked) = true) as H3
    by compute_done.
  split_and!; [exact H1|exact H2|].
  destruct (lock_refused_when_locked "/tmp/locks/" "web" caller_data false
              w_web_locked H1 H2)
    as (w' & Hrun & _ & _ & _ & _ & _ & Hsame & _).
  rewrite (Hsame H3) in Hrun. exact Hrun.
Defined.

Lemma unlock_refused_when_unlocked_witness :
  readable_file (fs w_unlocked) (lock_path "/tmp/locks/" "web") = false ∧
  dir_ok "/tmp/locks/" (fs w_unlocked) = true ∧
  lock "/tmp/locks/" "web" caller_data "unlock" false true w_unlocked
    = (Raises LockFileNotPresentError, w_unlocked).
Proof.
  assert (readable_file (fs w_unlocked) (lock_path "/tmp/locks/" "web") = false)
    as H1 by compute_done.
  assert (dir_ok "/tmp/locks/" (fs w_unlocked) = true) as H2 by compute_done.
  assert (dir_exists "/tmp/locks/" (fs w_unlocked) = true) as H3
    by compute_done.
  split_and!; [exact H1|exact H2|].
  destruct (unlock_refused_when_unlocked "/tmp/locks/" "web" caller_data false
              w_unlocked H1 H2)
    as (w' & Hrun & _ & _ & _ & _ & Hsame).
  rewrite (Hsame H3) in Hrun. exact Hrun.
Defined.

Lemma other_action_raises_witness :
  "wipe" ≠ "status" ∧ "wipe" ≠ "lock" ∧ "wipe" ≠ "unlock" ∧
  lock "/tmp/locks/" "web" caller_data "wipe" false false w_web_locked
    = (Raises LockActionError, w_web_locked).
Proof.
  assert ("wipe" ≠ "status") as H1 by compute_done.
  assert ("wipe" ≠ "lock") as H2 by compute_done.
  assert ("wipe" ≠ "unlock") as H3 by compute_done.
  assert (dir_exists "/tmp/locks/" (fs w_web_locked) = true) as H4
    by compute_done.
  split_and!; [exact H1|exact H2|exact H3|].
  destruct (other_action_raises "/tmp/locks/" "web" caller_data "wipe" false
              false w_web_locked H1 H2 H3)
    as (e & w' & Hrun & _ & _ & _ & _ & _ & Hsame).
  destruct (Hsame H4) as [He Hw]. rewrite He, Hw in Hrun. exact Hrun.
Defined.

Lemma lock_unlock_round_trip_witness :
  heap w_unlocked !! caller_data = Some maintenance ∧
  lock "/tmp/locks/" "web" caller_data "lock" true false w_unlocked
    = (Returns caller_data, w_web_locked) ∧
  lock "/tmp/locks/" "web" caller_data "unlock" false true w_web_locked
    = (Returns caller_data, w_web_unlocked) ∧
  node_at (fs w_web_unlocked) (resolve (lock_path "/tmp/locks/" "web")) = None ∧
  fs w_web_unlocked = fs w_unlocked.
Proof.
  assert (heap w_unlocked !! caller_data = Some maintenance) as H1
    by compute_done.
  assert (lock "/tmp/locks/" "web" caller_data "lock" true false w_unlocked
          = (Returns caller_data, w_web_locked)) as H2 by compute_done.
  assert (heap w_web_locked !! caller_data
          = Some (merged maintenance
                    (return_info (VStr "/tmp/locks/web.lock") "locked") "lock"))
    as H3 by compute_done.
  assert (lock "/tmp/locks/" "web" caller_data "unlock" false true w_web_locked
          = (Returns caller_data, w_web_unlocked)) as H4 by compute_done.
  assert (dir_exists "/tmp/locks/" (fs w_unlocked) = true) as H5
    by compute_done.
  assert (node_at (fs w_unlocked) (resolve (lock_path "/tmp/locks/" "web"))
          = None) as H6 by compute_done.
  destruct (lock_unlock_round_trip _ _ _ _ _ _ _ _ _ _ _ _ _ _ _ H1 H2 H3 H4)
    as (Habsent & _ & _ & Hsame).
  split_and!; [exact H1|exact H2|exact H4|exact Habsent|exact (Hsame H5 H6)].
Defined.

Lemma relock_overwrites_witness :
  heap (w_held true true) !! caller_data = Some maintenance ∧
  dir_ok "/tmp/locks/" (fs (w_held true true)) = true ∧
  node_at (fs (w_held true true)) (resolve (lock_path "/tmp/locks/" "web"))
    = Some (File true true (YamlDoc held_by_alice)) ∧
  ∃ w', lock "/tmp/locks/" "web" caller_data "lock" false false
          (w_held true true) = (Returns caller_data, w') ∧
        persisted (fs w') (lock_path "/tmp/locks/" "web")
          = Some (dict_update maintenance
                    (return_info (VStr (lock_path "/tmp/locks/" "web"))
                       "locked")).
Proof.
  assert (heap (w_held true true) !! caller_data = Some maintenance) as H1
    by compute_done.
  assert (dir_ok "/tmp/locks/" (fs (w_held true true)) = true) as H2
    by compute_done.
  assert (node_at (fs (w_held true true))
            (resolve (lock_path "/tmp/locks/" "web"))
          = Some (File true true (YamlDoc held_by_alice))) as H3
    by compute_done.
  split_and!; [exact H1|exact H2|exact H3|].
  destruct (relock_overwrites "/tmp/locks/" "web" caller_data maintenance false
              (YamlDoc held_by_alice) (w_held true true) H1 H2 H3)
    as (w' & Hrun & Hpersisted & _).
  exists w'. split; [exact Hrun|exact Hpersisted].
Defined.

(** * The helpers on their own *)

(** ** [is_locked], [ensure_lock], [ensure_unlock] *)


(** X2.  [ensure_lock] and [ensure_unlock] are each other's complement: in
    every world exactly one of them returns [True] and the other raises its
    own exception, and neither changes anything. *)
Theorem ensure_lock_unlock_complementary (name : string) (w : world) :
  (readable_file (fs w) name = true ∧
   ensure_lock name w = (Returns true, w) ∧
   ensure_unlock name w = (Raises LockFilePresentError, w)) ∨
  (readable_file (fs w) name = false ∧
   ensure_lock name w = (Raises LockFileNotPresentError, w) ∧
   ensure_unlock name w = (Returns true, w)).
Proof.
  rewrite run_ensure_lock, run_ensure_unlock.
  destruct (readable_file (fs w) name); [left|right]; done.
Qed.

(** ** [create_lock_dir] *)

(** X3.  Once [create_lock_dir] has returned, calling it again returns and
    changes nothing.  What the first call changed is directories it added on
    the way to the directory; nothing that was there is altered and the
    dictionaries are not touched. *)
Theorem create_lock_dir_idempotent (d : string) (w w1 : world) :
  create_lock_dir d w = (Returns (), w1) →
  create_lock_dir d w1 = (Returns (), w1) ∧
  adds_dirs_to (resolve d) (fs w) (fs w1) ∧
  heap w1 = heap w.
Proof.
  intros Hrun. rewrite run_create_lock_dir in Hrun.
  assert (dir_ok d (fs w) = true) as Hd.
  { unfold dir_ok. by destruct (fst (os_makedirs d (fs w))) as [[]|]. }
  assert (w1 = set_fs (after_makedirs d (fs w)) w) as -> by congruence.
  cbn [fs heap set_fs]. split_and!; [|apply after_makedirs_adds|done].
  pose proof (dir_ok_exists_after d (fs w) Hd) as He.
  rewrite (run_create_lock_dir_ok d (set_fs (after_makedirs d (fs w)) w)
             (dir_exists_ok _ _ He)).
  cbn [fs set_fs]. by rewrite (dir_exists_after _ _ He).
Qed.



(** ** [create_lock_file], [write_to_lock_file], [remove_lock_file] *)

(** X5.  [create_lock_file] does not truncate: when it returns, a file that
    was at the path is there unchanged, and where nothing was an empty
    readable and writable file is; no other path and no dictionary has
    changed, and calling it again changes nothing. *)
Theorem create_lock_file_keeps_content (name : string) (w w1 : world) :
  create_lock_file name w = (Returns (), w1) →
  heap w1 = heap w ∧
  same_except (resolve name) (fs w) (fs w1) ∧
  node_at (fs w1) (resolve name) =
    Some (default (File true true Empty) (node_at (fs w) (resolve name))) ∧
  create_lock_file name w1 = (Returns (), w1).
Proof.
  unfold create_lock_file, syscall, open_append, create_in_parent.
  destruct (node_at (fs w) (resolve name)) as [[|rd [] c]|] eqn:Hnode;
    try done.
  - intros [= <-]. cbn [fs heap set_fs]. rewrite Hnode.
    split_and!; done.
  - destruct (node_at (fs w) (parent (resolve name))) as [[]|]; try done.
    intros [= <-]. cbn [fs heap set_fs].
    assert (resolve name ≠ []) as Hne by (intros E; by rewrite E in Hnode).
    rewrite node_at_lookup, lookup_insert_eq by done.
    split_and!; try done. apply same_except_insert.
Qed.

(** X6.  What [write_to_lock_file] writes can be read back: when it
    returns, the lock file is writable and holds the dump of the mapping as
    it was at the call, replacing any earlier content; the file is readable
    unless it was there before and could not be read.  No other path and no
    dictionary has changed. *)
Theorem write_to_lock_file_round_trip (d n : string) (r : ref) (w w1 : world) :
  write_to_lock_file d n r w = (Returns (), w1) →
  let lp := resolve (lock_path d n) in
  heap w1 = heap w ∧
  same_except lp (fs w) (fs w1) ∧
  ∃ rd,
    node_at (fs w1) lp = Some (File rd true (YamlDoc (deref r w))) ∧
    (rd = true → persisted (fs w1) (lock_path d n) = Some (deref r w)) ∧
    (node_at (fs w) lp = None → rd = true) ∧
    (∀ rd0 wr0 c0, node_at (fs w) lp = Some (File rd0 wr0 c0) → rd = rd0).
Proof.
  intros Hrun lp. pose proof (resolve_lock_path_nonempty d n) as Hne.
  unfold write_to_lock_file, syscall, open_write, create_in_parent in Hrun.
  fold (lock_path d n) in Hrun. fold lp in Hrun, Hne.
  destruct (node_at (fs w) lp) as [[|rd [] c]|] eqn:Hnode; try done.
  - injection Hrun as <-. cbn [fs heap set_fs].
    split_and!; [done|apply same_except_insert|]. exists rd.
    rewrite node_at_lookup, lookup_insert_eq by done. split_and!; try done.
    + intros ->. apply persisted_insert.
    + by intros rd0 wr0 c0 [= -> _ _].
  - destruct (node_at (fs w) (parent lp)) as [[]|]; try done.
    injection Hrun as <-. cbn [fs heap set_fs].
    split_and!; [done|apply same_except_insert|]. exists true.
    rewrite node_at_lookup, lookup_insert_eq by done. split_and!; try done.
    intros _. apply persisted_insert.
Qed.

(** X7.  [create_lock_file] before [write_to_lock_file] adds nothing: the
    two in a row return or raise exactly what [write_to_lock_file] alone
    does, and leave the same world. *)
Theorem create_then_write_is_write (d n : string) (r : ref) (w : world) :
  (create_lock_file (lock_path d n);; write_to_lock_file d n r) w =
  write_to_lock_file d n r w.
Proof.
  pose proof (resolve_lock_path_nonempty d n) as Hne.
  rewrite run_bind.
  unfold create_lock_file, write_to_lock_file, syscall, open_append,
    open_write, create_in_parent, deref.
  fold (lock_path d n).
  destruct (node_at (fs w) (resolve (lock_path d n)))
    as [[|rd [] c]|] eqn:Hnode; try done.
  - cbn [fs heap set_fs]. by rewrite Hnode.
  - destruct (node_at (fs w) (parent (resolve (lock_path d n)))) as [[]|];
      try done.
    cbn [fs heap set_fs].
    rewrite node_at_lookup, lookup_insert_eq by done.
    by rewrite insert_insert_eq.
Qed.

(** X8.  After [remove_lock_file] has returned the path is gone:
    [is_locked] answers [False], every other path is as it was, and a second
    removal raises [OSError] with [ENOENT] and changes nothing. *)
Theorem remove_lock_file_then_gone (name : string) (w w1 : world) :
  remove_lock_file name w = (Returns (), w1) →
  heap w1 = heap w ∧
  same_except (resolve name) (fs w) (fs w1) ∧
  node_at (fs w1) (resolve name) = None ∧
  is_locked name w1 = (Returns false, w1) ∧
  remove_lock_file name w1 = (Raises (OSError ENOENT), w1).
Proof.
  unfold remove_lock_file, syscall, os_remove.
  destruct (node_at (fs w) (resolve name)) as [[|rd wr c]|] eqn:Hnode;
    try done.
  intros [= <-]. cbn [fs heap set_fs].
  assert (resolve name ≠ []) as Hne by (intros E; by rewrite E in Hnode).
  assert (node_at (delete (resolve name) (fs w)) (resolve name) = None) as Hgone.
  { rewrite node_at_lookup by done. apply lookup_delete_eq. }
  split_and!; [done|apply same_except_delete|done|..].
  - rewrite run_is_locked. unfold readable_file, open_read.
    cbn [fs set_fs]. by rewrite Hgone.
  - cbn [fs set_fs]. by rewrite Hgone.
Qed.

(** * The actions, further *)

(** ** Unlock *)


(** X10.  Unlocking where no regular file is at the lock path -- nothing
    there, or a directory -- raises [LockFileNotPresentError], with or
    without [ensure_lock_state]; the mapping is not touched and no file is
    created, removed or rewritten. *)
Theorem unlock_without_lock_file_raises (d n : string) (r : ref)
    (m : metadata) (eu el : bool) (w : world) :
  heap w !! r = Some m →
  dir_ok d (fs w) = true →
  (∀ rd wr c, node_at (fs w) (resolve (lock_path d n)) ≠ Some (File rd wr c)) →
  ∃ w',
    lock d n r "unlock" eu el w = (Raises LockFileNotPresentError, w') ∧
    heap w' = heap w ∧
    same_files (fs w) (fs w') ∧
    node_at (fs w') (resolve (lock_path d n)) =
      node_at (fs w) (resolve (lock_path d n)).
Proof.
  intros Hr Hd Hnode. exists (set_fs (after_makedirs d (fs w)) w). split.
  { rewrite (run_lock_unlock d n r m eu el w Hr Hd).
    destruct (el && negb (readable_file (fs w) (lock_path d n))); [done|].
    destruct (node_at (fs w) (resolve (lock_path d n))) as [[|rd wr c]|];
      try done.
    by destruct (Hnode rd wr c). }
  cbn [fs heap set_fs]. split_and!; [done| |apply after_makedirs_lock_path].
  eapply adds_dirs_to_same_files, after_makedirs_adds.
Qed.

(** ** Lock on a fresh resource *)


Lemma resolve_directory_slash (d : string) : resolve (d +:+ "/") = resolve d.
Proof.
  replace (d +:+ "/") with (d +:+ "/" +:+ "") by (by rewrite string_app_nil_r).
  rewrite resolve_app_slash. change (resolve "") with (@nil string).
  apply app_nil_r.
Qed.





(** ** Calls in a row *)

Lemma merged_idempotent (m info : metadata) (a : string) :
  merged (merged m info a) info a = merged m info a.
Proof.
  unfold merged, dict_update. apply map_eq. intros k.
  rewrite !lookup_union.
  by destruct ({["lock_action" := VStr a]} !! k), (info !! k), (m !! k).
Qed.

(** The entries of [return_info] and the [lock_action] entry have different
    keys: merging the former again over a merged mapping changes nothing. *)
Lemma merged_return_info_again (m : metadata) (l : value) (s a : string) :
  dict_update (merged m (return_info l s) a) (return_info l s)
  = merged m (return_info l s) a.
Proof.
  apply map_eq. intros k.
  destruct (decide (k = "lock_file_location")) as [->|Hl].
  { rewrite (dict_update_lookup_new _ _ _ _ (return_info_location l s)).
    rewrite merged_other by done.
    by rewrite (dict_update_lookup_new _ _ _ _ (return_info_location l s)). }
  destruct (decide (k = "lock_file_status")) as [->|Hs].
  { rewrite (dict_update_lookup_new _ _ _ _ (return_info_status l s)).
    rewrite merged_other by done.
    by rewrite (dict_update_lookup_new _ _ _ _ (return_info_status l s)). }
  by rewrite dict_update_lookup_old by (by apply return_info_other).
Qed.

(** X12.  Status is idempotent: a status call right after a status call
    that returned returns too and leaves the world exactly as the first call
    left it, the file system and the mapping alike. *)
Theorem status_twice (d n : string) (r r' : ref) (m : metadata)
    (eu el eu' el' : bool) (w w1 : world) :
  heap w !! r = Some m →
  lock d n r "status" eu el w = (Returns r', w1) →
  lock d n r "status" eu' el' w1 = (Returns r, w1).
Proof.
  intros Hr Hrun.
  assert (dir_ok d (fs w) = true) as Hd.
  { destruct (dir_ok d (fs w)) eqn:Hd; [done|].
    destruct (run_lock_dir_fails d n r "status" eu el w Hd) as (en & _ & He).
    congruence. }
  rewrite (run_lock_status d n r m eu el w Hr Hd) in Hrun.
  injection Hrun as _ <-.
  pose proof (dir_ok_exists_after d (fs w) Hd) as He.
  erewrite run_lock_status;
    [|cbn [heap]; apply lookup_insert_eq|cbn [fs]; by apply dir_exists_ok].
  cbn [fs heap].
  rewrite (dir_exists_after _ _ He), after_makedirs_readable.
  by rewrite merged_idempotent, insert_insert_eq.
Qed.

Lemma lock_returns_world (d n : string) (r r' : ref) (m : metadata)
    (eu el : bool) (w w' : world) :
  heap w !! r = Some m →
  lock d n r "lock" eu el w = (Returns r', w') →
  let info := return_info (VStr (lock_path d n)) "locked" in
  dir_ok d (fs w) = true ∧ r' = r ∧
  w' = World (<[resolve (lock_path d n) :=
                  File true true (YamlDoc (dict_update m info))]>
                (after_makedirs d (fs w)))
         (<[r := merged m info "lock"]> (heap w)).
Proof.
  intros Hr Hrun info. destruct (dir_ok d (fs w)) eqn:Hd.
  - rewrite (run_lock_lock d n r m eu el w Hr Hd) in Hrun.
    destruct (eu && readable_file (fs w) (lock_path d n)); [done|].
    destruct (node_at (fs w) (resolve (lock_path d n)))
      as [[|[] [] c]|]; try done.
    + by injection Hrun as <- <-.
    + destruct (node_at (after_makedirs d (fs w))
                  (parent (resolve (lock_path d n)))) as [[]|]; try done.
      by injection Hrun as <- <-.
  - destruct (run_lock_dir_fails d n r "lock" eu el w Hd) as (en & _ & He).
    congruence.
Qed.

(** X13.  Locking again with the mapping a lock call returned (and without
    [ensure_unlock_state]) returns and leaves the mapping as it is; only now
    does the lock file hold the whole returned mapping, [lock_action: "lock"]
    included, which the first call left out of the file. *)
Theorem lock_twice_persists_returned_mapping (d n : string) (r r' : ref)
    (m : metadata) (eu el el' : bool) (w w1 : world) :
  heap w !! r = Some m →
  lock d n r "lock" eu el w = (Returns r', w1) →
  ∃ w2,
    lock d n r "lock" false el' w1 = (Returns r, w2) ∧
    deref r w2 = deref r w1 ∧
    persisted (fs w2) (lock_path d n) = Some (deref r w2) ∧
    persisted (fs w1) (lock_path d n)
      = Some (dict_update m (return_info (VStr (lock_path d n)) "locked")) ∧
    deref r w2 !! "lock_action" = Some (VStr "lock").
Proof.
  intros Hr Hrun.
  destruct (lock_returns_world _ _ _ _ _ _ _ _ _ Hr Hrun) as (Hd & -> & ->).
  set (info := return_info (VStr (lock_path d n)) "locked").
  set (f1 := after_makedirs d (fs w)).
  pose proof (resolve_lock_path_nonempty d n) as Hne.
  assert (dir_exists d
            (<[resolve (lock_path d n) :=
                 File true true (YamlDoc (dict_update m info))]> f1) = true)
    as He.
  { eapply dir_exists_change_lock_path; [apply same_except_insert|].
    by apply dir_ok_exists_after. }
  eexists. split.
  { erewrite run_lock_lock;
      [|cbn [heap]; apply lookup_insert_eq|cbn [fs]; by apply dir_exists_ok].
    cbn [fs heap andb]. rewrite node_at_lookup, lookup_insert_eq by done.
    rewrite (dir_exists_after _ _ He). reflexivity. }
  cbn [fs]. rewrite !deref_insert, !insert_insert_eq, !persisted_insert.
  subst info. rewrite merged_idempotent, merged_return_info_again.
  split_and!; try done. apply merged_action.
Qed.

(** ** What a call returns and raises *)

(** X14.  The mapping a call returns, whatever the action: it is the object
    that was passed in; [lock_action] is the action of the call;
    [lock_file_status] is ["locked"] exactly when the lock file can be read
    once the call is over, and [lock_file_location] is then the lock path,
    [None] otherwise; every other key holds what it held before. *)
Theorem returned_mapping_law (d n : string) (r r' : ref) (m : metadata)
    (a : string) (eu el : bool) (w w' : world) :
  heap w !! r = Some m →
  lock d n r a eu el w = (Returns r', w') →
  let locked := readable_file (fs w') (lock_path d n) in
  r' = r ∧
  deref r w' !! "lock_action" = Some (VStr a) ∧
  deref r w' !! "lock_file_status" =
    Some (VStr (if locked then "locked" else "unlocked")) ∧
  deref r w' !! "lock_file_location" =
    Some (if locked then VStr (lock_path d n) else VNone) ∧
  (∀ k, k ≠ "lock_action" → k ≠ "lock_file_status" →
        k ≠ "lock_file_location" → deref r w' !! k = m !! k).
Proof.
  intros Hr Hrun locked.
  assert (dir_ok d (fs w) = true) as Hd.
  { destruct (dir_ok d (fs w)) eqn:Hd; [done|].
    destruct (run_lock_dir_fails d n r a eu el w Hd) as (en & _ & He).
    congruence. }
  pose proof (resolve_lock_path_nonempty d n) as Hne.
  assert (∀ f (b : bool),
    readable_file f (lock_path d n) = b →
    w' = World f
           (<[r := merged m
                     (if b then return_info (VStr (lock_path d n)) "locked"
                      else return_info VNone "unlocked") a]> (heap w)) →
    deref r w' !! "lock_action" = Some (VStr a) ∧
    deref r w' !! "lock_file_status" =
      Some (VStr (if locked then "locked" else "unlocked")) ∧
    deref r w' !! "lock_file_location" =
      Some (if locked then VStr (lock_path d n) else VNone) ∧
    (∀ k, k ≠ "lock_action" → k ≠ "lock_file_status" →
          k ≠ "lock_file_location" → deref r w' !! k = m !! k)) as Hlaw.
  { intros f b Hb Hw. subst locked. rewrite Hw. cbn [fs].
    rewrite Hb, deref_insert. split_and!.
    - apply merged_action.
    - rewrite merged_other by done.
      destruct b; apply dict_update_lookup_new, return_info_status.
    - rewrite merged_other by done.
      destruct b; apply dict_update_lookup_new, return_info_location.
    - intros k H1 H2 H3. rewrite merged_other by done.
      destruct b; by apply dict_update_lookup_old, return_info_other. }
  destruct (decide (a = "status")) as [->|Hs].
  { rewrite (run_lock_status d n r m eu el w Hr Hd) in Hrun.
    injection Hrun as <- Hw. split; [done|].
    apply (Hlaw (after_makedirs d (fs w))
             (readable_file (fs w) (lock_path d n)));
      [apply after_makedirs_readable|by symmetry]. }
  destruct (decide (a = "unlock")) as [->|Hu].
  { rewrite (run_lock_unlock d n r m eu el w Hr Hd) in Hrun.
    destruct (el && negb (readable_file (fs w) (lock_path d n))); [done|].
    destruct (node_at (fs w) (resolve (lock_path d n))) as [[|rd wr c]|];
      try done.
    injection Hrun as <- Hw. split; [done|].
    apply (Hlaw (delete (resolve (lock_path d n)) (after_makedirs d (fs w)))
             false); [|by symmetry].
    unfold readable_file, open_read.
    by rewrite node_at_lookup, lookup_delete_eq. }
  destruct (decide (a = "lock")) as [->|Hl].
  { destruct (lock_returns_world _ _ _ _ _ _ _ _ _ Hr Hrun) as (_ & -> & Hw).
    split; [done|].
    eapply (Hlaw _ true); [|exact Hw].
    unfold readable_file, open_read.
    by rewrite node_at_lookup, lookup_insert_eq. }
  by rewrite run_lock_other in Hrun.
Qed.


(** X16.  A lock action whose verification fails has already done its
    work: when the lock file can be written but not read, the call raises
    [LockFileNotPresentError] after the file was written, and the caller's
    mapping says [lock_file_status: "locked"] and names the lock path, with
    no [lock_action] added. *)
Theorem failed_verification_leaves_locked (d n : string) (r : ref)
    (m : metadata) (eu el : bool) (c : content) (w : world) :
  heap w !! r = Some m →
  dir_ok d (fs w) = true →
  node_at (fs w) (resolve (lock_path d n)) = Some (File false true c) →
  ∃ w',
    lock d n r "lock" eu el w = (Raises LockFileNotPresentError, w') ∧
    deref r w' !! "lock_file_status" = Some (VStr "locked") ∧
    deref r w' !! "lock_file_location" = Some (VStr (lock_path d n)) ∧
    deref r w' !! "lock_action" = m !! "lock_action" ∧
    readable_file (fs w') (lock_path d n) = false.
Proof.
  intros Hr Hd Hnode.
  assert (readable_file (fs w) (lock_path d n) = false) as Hl.
  { unfold readable_file, open_read. by rewrite Hnode. }
  eexists. split.
  { rewrite (run_lock_lock d n r m eu el w Hr Hd), Hl, andb_false_r, Hnode.
    reflexivity. }
  cbn [fs]. rewrite deref_insert. split_and!.
  - apply dict_update_lookup_new, return_info_status.
  - apply dict_update_lookup_new, return_info_location.
  - by apply dict_update_lookup_old, return_info_other.
  - unfold readable_file, open_read.
    rewrite node_at_lookup by apply resolve_lock_path_nonempty.
    by rewrite lookup_insert_eq.
Qed.

(** * What a call leaves alone *)

Section respects.
Context (R : world → world → Prop).
Hypothesis R_refl : ∀ w, R w w.
Hypothesis R_trans : ∀ w1 w2 w3, R w1 w2 → R w2 w3 → R w1 w3.

Lemma respects_ret {A} (a : A) : respects R (ret a).
Proof. intros w o w' [= _ <-]. apply R_refl. Qed.

Lemma respects_raise {A} (e : exn) : respects R (@raise A e).
Proof. intros w o w' [= _ <-]. apply R_refl. Qed.

Lemma respects_is_locked (name : string) : respects R (is_locked name).
Proof. intros w o w'. rewrite run_is_locked. intros [= _ <-]. apply R_refl. Qed.

Lemma respects_bind {A B} (m : M A) (k : A → M B) :
  respects R m → (∀ a, respects R (k a)) → respects R (m ≫= k).
Proof.
  intros Hm Hk w o w'. rewrite run_bind.
  destruct (m w) as [[a|e] w1] eqn:Hrun.
  - intros Hrun'. eapply R_trans; [by eapply Hm|by eapply Hk].
  - intros [= _ <-]. by eapply Hm.
Qed.

Lemma respects_try_except {A} (m : M A) (h : exn → M A) :
  respects R m → (∀ e, respects R (h e)) → respects R (try_except m h).
Proof.
  intros Hm Hh w o w'. unfold try_except.
  destruct (m w) as [[a|e] w1] eqn:Hrun.
  - intros [= _ <-]. by eapply Hm.
  - intros Hrun'. eapply R_trans; [by eapply Hm|by eapply Hh].
Qed.
End respects.

Lemma touches_only_refl (r : ref) (lp target : path) (w : world) :
  touches_only r lp target w w.
Proof. by split. Qed.

Lemma touches_only_trans (r : ref) (lp target : path) (w1 w2 w3 : world) :
  touches_only r lp target w1 w2 → touches_only r lp target w2 w3 →
  touches_only r lp target w1 w3.
Proof.
  intros [Hh12 Hf12] [Hh23 Hf23]. split.
  - intros r' Hr'. by rewrite Hh23, Hh12.
  - intros q H1 H2. by rewrite Hf23, Hf12.
Qed.

Lemma touches_only_update (r : ref) (lp target : path) (other : metadata) :
  respects (touches_only r lp target) (update r other).
Proof.
  intros w o w' [= _ <-]. split; [|done].
  intros r' Hr'. cbn [heap set_heap]. by rewrite lookup_alter_ne.
Qed.

Lemma touches_only_syscall (r : ref) (lp target : path)
    (call : filesystem → option errno * filesystem) :
  (∀ f q, q ≠ lp → ¬ q `prefix_of` target → snd (call f) !! q = f !! q) →
  respects (touches_only r lp target) (syscall call).
Proof.
  intros Hcall w o w'. unfold syscall.
  destruct (call (fs w)) as [e f] eqn:Hc. intros [= _ <-].
  split; [done|]. intros q H1 H2. cbn [fs set_fs].
  specialize (Hcall (fs w) q H1 H2). by rewrite Hc in Hcall.
Qed.

Lemma open_append_elsewhere (name : string) (f : filesystem) (q : path) :
  q ≠ resolve name → snd (open_append name f) !! q = f !! q.
Proof.
  intros Hq. unfold open_append, create_in_parent.
  destruct (node_at f (resolve name)) as [[|? [] ?]|]; try done.
  destruct (node_at f (parent (resolve name))) as [[]|]; try done.
  cbn [snd]. by rewrite lookup_insert_ne.
Qed.

Lemma open_write_elsewhere (name : string) (c : content) (f : filesystem)
    (q : path) :
  q ≠ resolve name → snd (open_write name c f) !! q = f !! q.
Proof.
  intros Hq. unfold open_write, create_in_parent.
  destruct (node_at f (resolve name)) as [[|? [] ?]|]; try done.
  - cbn [snd]. by rewrite lookup_insert_ne.
  - destruct (node_at f (parent (resolve name))) as [[]|]; try done.
    cbn [snd]. by rewrite lookup_insert_ne.
Qed.

Lemma os_remove_elsewhere (name : string) (f : filesystem) (q : path) :
  q ≠ resolve name → snd (os_remove name f) !! q = f !! q.
Proof.
  intros Hq. unfold os_remove.
  destruct (node_at f (resolve name)) as [[|? ? ?]|]; try done.
  cbn [snd]. by rewrite lookup_delete_ne.
Qed.

Lemma os_makedirs_elsewhere (d : string) (f : filesystem) (q : path) :
  ¬ q `prefix_of` resolve d → snd (os_makedirs d f) !! q = f !! q.
Proof.
  intros Hq.
  apply (adds_dirs_to_off_target (resolve d)); [|done].
  apply (after_makedirs_adds d f).
Qed.

Lemma lock_touches_only (d n : string) (r : ref) (a : string) (eu el : bool) :
  respects (touches_only r (resolve (lock_path d n)) (resolve d))
    (lock d n r a eu el).
Proof.
  set (R := touches_only r (resolve (lock_path d n)) (resolve d)).
  assert (∀ w, R w w) as Hrefl by apply touches_only_refl.
  assert (∀ w1 w2 w3, R w1 w2 → R w2 w3 → R w1 w3) as Htrans
    by apply touches_only_trans.
  assert (∀ {A} (x : A), respects R (ret x)) as Hret
    by (intros; by apply respects_ret).
  assert (∀ {A} e, respects R (@raise A e)) as Hraise
    by (intros; by apply respects_raise).
  assert (∀ name, respects R (is_locked name)) as Hlocked
    by (intros; by apply respects_is_locked).
  assert (∀ other, respects R (update r other)) as Hupdate
    by (intros; apply touches_only_update).
  assert (∀ {A B} (m : M A) (k : A → M B),
            respects R m → (∀ x, respects R (k x)) → respects R (m ≫= k))
    as Hbind by (intros; by apply respects_bind).
  assert (respects R (ensure_lock (lock_path d n))) as Hel.
  { apply Hbind; [done|]. intros []; simpl; done. }
  assert (respects R (ensure_unlock (lock_path d n))) as Heu.
  { apply Hbind; [done|]. intros []; simpl; done. }
  assert (respects R (create_lock_dir d)) as Hdir.
  { apply respects_try_except; try done.
    - apply touches_only_syscall. intros f q _ Hq.
      by apply os_makedirs_elsewhere.
    - intros [| | | |en]; try done. by destruct (decide (en ≠ EEXIST)). }
  assert (respects R (create_lock_file (lock_path d n))) as Hcreate.
  { apply touches_only_syscall. intros f q Hq _.
    by apply open_append_elsewhere. }
  assert (respects R (write_to_lock_file d n r)) as Hwrite.
  { intros w o w'. unfold write_to_lock_file.
    apply touches_only_syscall. intros f q Hq _.
    by apply open_write_elsewhere. }
  assert (respects R (remove_lock_file (lock_path d n))) as Hremove.
  { apply touches_only_syscall. intros f q Hq _.
    by apply os_remove_elsewhere. }
  unfold lock. fold (lock_path d n).
  apply Hbind; [done|]. intros _.
  apply Hbind; [|intros _; apply Hbind; [done|by intros _]].
  destruct (String.eqb a (LockAction_value STATUS)).
  { apply Hbind; [done|]. by intros []. }
  destruct (String.eqb a (LockAction_value UNLOCK)).
  { apply Hbind; [by destruct el|]. intros _.
    apply Hbind; [by apply respects_try_except|]. intros _.
    apply Hbind; [done|]. by intros []. }
  destruct (String.eqb a (LockAction_value LOCK)); [|done].
  apply Hbind; [by destruct eu|]. intros _.
  apply Hbind; [done|]. intros _.
  apply Hbind; [done|]. intros _.
  apply Hbind; [done|]. intros _.
  apply Hbind; [done|]. by intros [].
Qed.

(** X17.  A call changes no dictionary but the one it is given, whatever
    the action and whether it returns or raises: in particular a call that
    passes its own mapping leaves the default mapping of [lock_data] as it
    was. *)
Theorem lock_leaves_other_mappings (d n : string) (r r' : ref) (a : string)
    (eu el : bool) (w : world) :
  r' ≠ r →
  heap (snd (lock d n r a eu el w)) !! r' = heap w !! r'.
Proof.
  intros Hr'.
  destruct (lock d n r a eu el w) as [o w'] eqn:Hrun.
  by apply (lock_touches_only d n r a eu el w o w' Hrun).
Qed.


(** * Resource names and flags *)

(** X19.  Resource names are not normalised.  In one directory the names
    [n], ["/" +:+ n] and ["./" +:+ n] give three different lock path
    strings, hence three different [lock_file_location]s, and yet one and
    the same file: a lock taken under one name is seen, overwritten and
    removed under the others. *)
Theorem resource_names_alias (d n : string) :
  let plain := lock_path (d +:+ "/") n in
  let slash := lock_path (d +:+ "/") ("/" +:+ n) in
  let dot := lock_path (d +:+ "/") ("./" +:+ n) in
  slash ≠ plain ∧ dot ≠ plain ∧ dot ≠ slash ∧
  resolve slash = resolve plain ∧
  resolve dot = resolve plain ∧
  (∀ f, readable_file f slash = readable_file f plain) ∧
  (∀ f, readable_file f dot = readable_file f plain).
Proof.
  intros plain slash dot.
  assert (plain = d +:+ "/" +:+ (n +:+ ".lock")) as Hplain.
  { subst plain. unfold lock_path. by rewrite string_app_assoc. }
  assert (slash = (d +:+ "/") +:+ "/" +:+ (n +:+ ".lock")) as Hslash.
  { subst slash. unfold lock_path. by rewrite !string_app_assoc. }
  assert (dot = (d +:+ "/" +:+ ".") +:+ "/" +:+ (n +:+ ".lock")) as Hdot.
  { subst dot. unfold lock_path. by rewrite !string_app_assoc. }
  assert (resolve slash = resolve plain) as Hrs.
  { rewrite Hslash, Hplain, !resolve_app_slash.
    by rewrite resolve_directory_slash. }
  assert (resolve dot = resolve plain) as Hrd.
  { rewrite Hdot, Hplain, !resolve_app_slash.
    change (resolve ".") with (@nil string). by rewrite app_nil_r. }
  assert (String.length slash = S (String.length plain)) as Hls.
  { rewrite Hslash, Hplain. rewrite !string_length_app. simpl. lia. }
  assert (String.length dot = S (S (String.length plain))) as Hld.
  { rewrite Hdot, Hplain. rewrite !string_length_app. simpl. lia. }
  split_and!; try done.
  - intros E. rewrite E in Hls. lia.
  - intros E. rewrite E in Hld. lia.
  - intros E. rewrite E in Hld. lia.
  - intros f. unfold readable_file, open_read. by rewrite Hrs.
  - intros f. unfold readable_file, open_read. by rewrite Hrd.
Qed.

(** X20.  Each precondition flag is read by one action only, and only
    matters when its precondition fails.  Status takes no notice of either
    flag, lock none of [ensure_lock_state], unlock none of
    [ensure_unlock_state]; on a resource that is not locked the lock action
    does the same with and without [ensure_unlock_state], and on a locked
    one the unlock action does the same with and without
    [ensure_lock_state]. *)
Theorem precondition_flags_scope (d n : string) (r : ref)
    (eu el eu' el' : bool) (w : world) :
  lock d n r "status" eu el w = lock d n r "status" eu' el' w ∧
  lock d n r "lock" eu el w = lock d n r "lock" eu el' w ∧
  lock d n r "unlock" eu el w = lock d n r "unlock" eu' el w ∧
  (readable_file (fs w) (lock_path d n) = false →
   lock d n r "lock" eu el w = lock d n r "lock" eu' el' w) ∧
  (readable_file (fs w) (lock_path d n) = true →
   lock d n r "unlock" eu el w = lock d n r "unlock" eu' el' w).
Proof.
  split_and!; try reflexivity.
  - intros Hl. unfold lock.
    cbn [String.eqb Ascii.eqb Bool.eqb LockAction_value].
    fold (lock_path d n).
    assert (∀ b : bool,
      (if b then ensure_unlock (lock_path d n) else ret true)
        (set_fs (after_makedirs d (fs w)) w)
      = (Returns true, set_fs (after_makedirs d (fs w)) w)) as Hflag.
    { intros []; [|done]. rewrite run_ensure_unlock. cbn [fs set_fs].
      by rewrite after_makedirs_readable, Hl. }
    rewrite !run_bind, run_create_lock_dir.
    destruct (fst (os_makedirs d (fs w))) as [[]|]; try done;
      by rewrite !run_bind, !Hflag.
  - intros Hl. unfold lock.
    cbn [String.eqb Ascii.eqb Bool.eqb LockAction_value].
    fold (lock_path d n).
    assert (∀ b : bool,
      (if b then ensure_lock (lock_path d n) else ret true)
        (set_fs (after_makedirs d (fs w)) w)
      = (Returns true, set_fs (after_makedirs d (fs w)) w)) as Hflag.
    { intros []; [|done]. rewrite run_ensure_lock. cbn [fs set_fs].
      by rewrite after_makedirs_readable, Hl. }
    rewrite !run_bind, run_create_lock_dir.
    destruct (fst (os_makedirs d (fs w))) as [[]|]; try done;
      by rewrite !run_bind, !Hflag.
Qed.


(** * The further theorems at concrete inputs *)

Lemma create_lock_dir_idempotent_witness :
  let w1 := snd (create_lock_dir "/tmp/locks/" w_no_directory) in
  create_lock_dir "/tmp/locks/" w_no_directory = (Returns (), w1) ∧
  create_lock_dir "/tmp/locks/" w1 = (Returns (), w1).
Proof.
  cbv zeta.
  assert (create_lock_dir "/tmp/locks/" w_no_directory
          = (Returns (), snd (create_lock_dir "/tmp/locks/" w_no_directory)))
    as H1 by compute_done.
  split; [exact H1|].
  exact (proj1 (create_lock_dir_idempotent _ _ _ H1)).
Defined.


Lemma create_lock_file_keeps_content_witness :
  let w1 := snd (create_lock_file "/tmp/locks/web.lock" (w_held true true)) in
  create_lock_file "/tmp/locks/web.lock" (w_held true true) = (Returns (), w1) ∧
  node_at (fs w1) (resolve "/tmp/locks/web.lock") =
    Some (default (File true true Empty)
            (node_at (fs (w_held true true)) (resolve "/tmp/locks/web.lock"))).
Proof.
  cbv zeta.
  assert (create_lock_file "/tmp/locks/web.lock" (w_held true true)
          = (Returns (),
             snd (create_lock_file "/tmp/locks/web.lock" (w_held true true))))
    as H1 by compute_done.
  split; [exact H1|].
  exact (proj1 (proj2 (proj2 (create_lock_file_keeps_content _ _ _ H1)))).
Defined.

Lemma write_to_lock_file_round_trip_witness :
  let w1 := snd (write_to_lock_file "/tmp/locks/" "web" caller_data
                   w_unlocked) in
  write_to_lock_file "/tmp/locks/" "web" caller_data w_unlocked
    = (Returns (), w1) ∧
  heap w1 = heap w_unlocked.
Proof.
  cbv zeta.
  assert (write_to_lock_file "/tmp/locks/" "web" caller_data w_unlocked
          = (Returns (),
             snd (write_to_lock_file "/tmp/locks/" "web" caller_data
                    w_unlocked))) as H1 by compute_done.
  split; [exact H1|].
  exact (proj1 (write_to_lock_file_round_trip _ _ _ _ _ H1)).
Defined.

Lemma remove_lock_file_then_gone_witness :
  let w1 := snd (remove_lock_file "/tmp/locks/web.lock" (w_held true true)) in
  remove_lock_file "/tmp/locks/web.lock" (w_held true true)
    = (Returns (), w1) ∧
  node_at (fs w1) (resolve "/tmp/locks/web.lock") = None.
Proof.
  cbv zeta.
  assert (remove_lock_file "/tmp/locks/web.lock" (w_held true true)
          = (Returns (),
             snd (remove_lock_file "/tmp/locks/web.lock" (w_held true true))))
    as H1 by compute_done.
  split; [exact H1|].
  exact (proj1 (proj2 (proj2 (remove_lock_file_then_gone _ _ _ H1)))).
Defined.


Lemma unlock_without_lock_file_raises_witness :
  heap w_unlocked !! caller_data = Some maintenance ∧
  dir_ok "/tmp/locks/" (fs w_unlocked) = true ∧
  node_at (fs w_unlocked) (resolve (lock_path "/tmp/locks/" "web")) = None ∧
  ∃ w', lock "/tmp/locks/" "web" caller_data "unlock" false false w_unlocked
          = (Raises LockFileNotPresentError, w') ∧
        heap w' = heap w_unlocked.
Proof.
  assert (heap w_unlocked !! caller_data = Some maintenance) as H1
    by compute_done.
  assert (dir_ok "/tmp/locks/" (fs w_unlocked) = true) as H2 by compute_done.
  assert (node_at (fs w_unlocked) (resolve (lock_path "/tmp/locks/" "web"))
          = None) as H3 by compute_done.
  assert (∀ rd wr c,
            node_at (fs w_unlocked) (resolve (lock_path "/tmp/locks/" "web"))
            ≠ Some (File rd wr c)) as H4.
  { intros rd wr c. rewrite H3. discriminate. }
  split_and!; [exact H1|exact H2|exact H3|].
  destruct (unlock_without_lock_file_raises "/tmp/locks/" "web" caller_data
              maintenance false false w_unlocked H1 H2 H4)
    as (w' & Hrun & Hheap & _).
  exists w'. split; [exact Hrun|exact Hheap].
Defined.


Lemma status_twice_witness :
  let w1 := snd (lock "/tmp/locks/" "web" caller_data "status" false false
                   w_no_directory) in
  heap w_no_directory !! caller_data = Some maintenance ∧
  lock "/tmp/locks/" "web" caller_data "status" false false w_no_directory
    = (Returns caller_data, w1) ∧
  lock "/tmp/locks/" "web" caller_data "status" true true w1
    = (Returns caller_data, w1).
Proof.
  cbv zeta.
  assert (heap w_no_directory !! caller_data = Some maintenance) as H1
    by compute_done.
  assert (lock "/tmp/locks/" "web" caller_data "status" false false
            w_no_directory
          = (Returns caller_data,
             snd (lock "/tmp/locks/" "web" caller_data "status" false false
                    w_no_directory))) as H2 by compute_done.
  split_and!; [exact H1|exact H2|].
  exact (status_twice _ _ _ _ _ _ _ true true _ _ H1 H2).
Defined.

Lemma lock_twice_persists_returned_mapping_witness :
  heap w_unlocked !! caller_data = Some maintenance ∧
  lock "/tmp/locks/" "web" caller_data "lock" true false w_unlocked
    = (Returns caller_data, w_web_locked) ∧
  ∃ w2, lock "/tmp/locks/" "web" caller_data "lock" false false w_web_locked
          = (Returns caller_data, w2) ∧
        persisted (fs w2) (lock_path "/tmp/locks/" "web")
          = Some (deref caller_data w2).
Proof.
  assert (heap w_unlocked !! caller_data = Some maintenance) as H1
    by compute_done.
  assert (lock "/tmp/locks/" "web" caller_data "lock" true false w_unlocked
          = (Returns caller_data, w_web_locked)) as H2 by compute_done.
  split_and!; [exact H1|exact H2|].
  destruct (lock_twice_persists_returned_mapping _ _ _ _ _ _ _ false _ _
              H1 H2) as (w2 & Hrun & _ & Hpersisted & _).
  exists w2. split; [exact Hrun|exact Hpersisted].
Defined.

Lemma returned_mapping_law_witness :
  heap w_web_locked !! caller_data
    = Some (merged maintenance
              (return_info (VStr "/tmp/locks/web.lock") "locked") "lock") ∧
  lock "/tmp/locks/" "web" caller_data "unlock" false true w_web_locked
    = (Returns caller_data, w_web_unlocked) ∧
  deref caller_data w_web_unlocked !! "lock_action" = Some (VStr "unlock").
Proof.
  assert (heap w_web_locked !! caller_data
          = Some (merged maintenance
                    (return_info (VStr "/tmp/locks/web.lock") "locked") "lock"))
    as H1 by compute_done.
  assert (lock "/tmp/locks/" "web" caller_data "unlock" false true w_web_locked
          = (Returns caller_data, w_web_unlocked)) as H2 by compute_done.
  split_and!; [exact H1|exact H2|].
  exact (proj1 (proj2 (returned_mapping_law _ _ _ _ _ _ _ _ _ _ H1 H2))).
Defined.


Lemma failed_verification_leaves_locked_witness :
  heap (w_held false true) !! caller_data = Some maintenance ∧
  dir_ok "/tmp/locks/" (fs (w_held false true)) = true ∧
  node_at (fs (w_held false true)) (resolve (lock_path "/tmp/locks/" "web"))
    = Some (File false true (YamlDoc held_by_alice)) ∧
  ∃ w', lock "/tmp/locks/" "web" caller_data "lock" false false
          (w_held false true) = (Raises LockFileNotPresentError, w') ∧
        deref caller_data w' !! "lock_file_status" = Some (VStr "locked").
Proof.
  assert (heap (w_held false true) !! caller_data = Some maintenance) as H1
    by compute_done.
  assert (dir_ok "/tmp/locks/" (fs (w_held false true)) = true) as H2
    by compute_done.
  assert (node_at (fs (w_held false true))
            (resolve (lock_path "/tmp/locks/" "web"))
          = Some (File false true (YamlDoc held_by_alice))) as H3
    by compute_done.
  split_and!; [exact H1|exact H2|exact H3|].
  destruct (failed_verification_leaves_locked "/tmp/locks/" "web" caller_data
              maintenance false false (YamlDoc held_by_alice)
              (w_held false true) H1 H2 H3)
    as (w' & Hrun & Hstatus & _).
  exists w'. split; [exact Hrun|exact Hstatus].
Defined.

Lemma lock_leaves_other_mappings_witness :
  default_lock_data ≠ caller_data ∧
  heap (snd (lock "/tmp/locks/" "web" caller_data "lock" false false
               w_unlocked)) !! default_lock_data
  = heap w_unlocked !! default_lock_data.
Proof.
  assert (default_lock_data ≠ caller_data) as H1 by compute_done.
  split; [exact H1|].
  exact (lock_leaves_other_mappings _ _ _ _ _ _ _ _ H1).
Defined.


Lemma precondition_flags_scope_witness :
  readable_file (fs w_unlocked) (lock_path "/tmp/locks/" "web") = false ∧
  lock "/tmp/locks/" "web" caller_data "lock" true false w_unlocked
  = lock "/tmp/locks/" "web" caller_data "lock" false true w_unlocked.
Proof.
  assert (readable_file (fs w_unlocked) (lock_path "/tmp/locks/" "web") = false)
    as H1 by compute_done.
  split; [exact H1|].
  exact (proj1 (proj2 (proj2 (proj2
           (precondition_flags_scope "/tmp/locks/" "web" caller_data
              true false false true w_unlocked)))) H1).
Defined.

